(** * Instagram post viewer: field normalisation, loading and search

    A shallow embedding of the logic of the [InstagramViewer] component
    (file upload handler, [tryParseJSON], [cleanDescription], [searchPosts])
    together with the ECMAScript built-ins it calls, and the properties of
    the written specification stated over that embedding.

    Strings are sequences of UTF-16 code units, as in ECMAScript.  Numbers
    are kept as the decimal quantity whose binary64 rounding is the
    ECMAScript Number; only the tests the program performs on them (is it
    NaN, is it a zero) are evaluated. *)

From Stdlib Require DecimalString.
From Stdlib Require Import String Ascii NArith ZArith Bool Lia List.
Import ListNotations.

Set Implicit Arguments.
Set Warnings "-register-all".

(* ================================================================== *)
(** * Part I. Definitions *)
(* ================================================================== *)

(** ** Strings of code units *)

Definition codeunit := N.
Definition jsstring := list codeunit.

(** Code units that are written as numbers below: 34 double quote,
    35 number sign, 39 single quote, 43 plus, 44 comma, 45 minus,
    46 full stop, 48 to 57 the digits, 58 colon, 91 and 93 square
    brackets, 92 backslash, 123 and 125 braces. *)

(** A string literal of the source, read as Latin-1 code units. *)
Definition js (s : string) : jsstring :=
  map N_of_ascii (list_ascii_of_string s).

Local Open Scope N_scope.

Definition inRange (lo hi c : codeunit) : bool := (lo <=? c) && (c <=? hi).

(** WhiteSpace and LineTerminator of ECMAScript: the set of [\s] in a
    regular expression, of [String.prototype.trim] and of StrWhiteSpace. *)
Definition isWhiteSpace (c : codeunit) : bool :=
  inRange 9 13 c || (c =? 32) || (c =? 160) || (c =? 5760)
  || inRange 8192 8202 c || (c =? 8232) || (c =? 8233) || (c =? 8239)
  || (c =? 8287) || (c =? 12288) || (c =? 65279).

Definition isDigit (c : codeunit) : bool := inRange 48 57 c.

(** [\w] without the unicode and ignoreCase flags: [A-Za-z0-9_]. *)
Definition isWordChar (c : codeunit) : bool :=
  inRange 65 90 c || inRange 97 122 c || isDigit c || (c =? 95).

Fixpoint startsWith (p s : jsstring) : bool :=
  match p, s with
  | [], _ => true
  | _ :: _, [] => false
  | x :: p', y :: s' => (x =? y) && startsWith p' s'
  end.

(** [s.includes(needle)] *)
Fixpoint includes (s needle : jsstring) : bool :=
  startsWith needle s
  || match s with
     | [] => false
     | _ :: s' => includes s' needle
     end.

(** [s.replace(pat, rep)] with a string pattern: only the first occurrence
    is replaced.  [rep] is taken literally (the source passes ['']). *)
Fixpoint replaceFirst (pat rep s : jsstring) : jsstring :=
  if startsWith pat s then rep ++ skipn (length pat) s
  else match s with
       | [] => []
       | c :: s' => c :: replaceFirst pat rep s'
       end.

(** [s.replace(/c/g, rep)] for a pattern that is one literal character. *)
Definition replaceEvery (c : codeunit) (rep : jsstring) (s : jsstring) : jsstring :=
  flat_map (fun x => if x =? c then rep else [x]) s.

Fixpoint trimStart (s : jsstring) : jsstring :=
  match s with
  | c :: s' => if isWhiteSpace c then trimStart s' else s
  | [] => []
  end.

Definition trimEnd (s : jsstring) : jsstring := rev (trimStart (rev s)).

(** [s.trim()] *)
Definition trim (s : jsstring) : jsstring := trimEnd (trimStart s).

(** [s.slice(start, end)], relative indices counted from the end when
    negative, both clamped to the string. *)
Definition sliceIndex (len i : Z) : Z :=
  if (i <? 0)%Z then Z.max (len + i) 0 else Z.min i len.

Definition slice (s : jsstring) (start stop : Z) : jsstring :=
  let len := Z.of_nat (length s) in
  let from := sliceIndex len start in
  let to := sliceIndex len stop in
  firstn (Z.to_nat (to - from)) (skipn (Z.to_nat from) s).

(** ** Regular expressions

    Patterns are matched through Brzozowski derivatives; [search] returns
    the index of the leftmost position at which some match starts. *)

Inductive regex : Type :=
| Never
| Eps
| Class (p : codeunit -> bool)
| Seq (r1 r2 : regex)
| Alt (r1 r2 : regex)
| Star (r : regex).

Definition Lit (c : codeunit) : regex := Class (N.eqb c).
Definition Plus (r : regex) : regex := Seq r (Star r).

Fixpoint nullable (r : regex) : bool :=
  match r with
  | Never => false
  | Eps => true
  | Class _ => false
  | Seq r1 r2 => nullable r1 && nullable r2
  | Alt r1 r2 => nullable r1 || nullable r2
  | Star _ => true
  end.

Fixpoint deriv (c : codeunit) (r : regex) : regex :=
  match r with
  | Never => Never
  | Eps => Never
  | Class p => if p c then Eps else Never
  | Seq r1 r2 =>
      if nullable r1 then Alt (Seq (deriv c r1) r2) (deriv c r2)
      else Seq (deriv c r1) r2
  | Alt r1 r2 => Alt (deriv c r1) (deriv c r2)
  | Star r1 => Seq (deriv c r1) (Star r1)
  end.

(** Does some prefix of [s] match [r]? *)
Fixpoint matchesAtStart (r : regex) (s : jsstring) : bool :=
  nullable r
  || match s with
     | [] => false
     | c :: s' => matchesAtStart (deriv c r) s'
     end.

Fixpoint searchFrom (r : regex) (s : jsstring) (i : nat) : option nat :=
  if matchesAtStart r s then Some i
  else match s with
       | [] => None
       | _ :: s' => searchFrom r s' (S i)
       end.

(** [s.search(r)]: index of the first match, or -1. *)
Definition search (r : regex) (s : jsstring) : Z :=
  match searchFrom r s 0 with
  | Some i => Z.of_nat i
  | None => (-1)%Z
  end.

(** ** Numbers *)

(** [Dec neg m e] stands for the Number nearest to [(-1)^neg * m * 10^e]. *)
Inductive JSNumber : Type :=
| NaN
| Infinity (neg : bool)
| Dec (neg : bool) (m : N) (e : Z).

Definition zero : JSNumber := Dec false 0 0.
Definition ofN (n : N) : JSNumber := Dec false n 0.

(** The binary64 rounding of [m * 10^e] is a zero exactly when
    [m * 10^e <= 2^-1075], half of the least subnormal (ties go to the
    even neighbour, which is 0). *)
Definition roundsToZero (m : N) (e : Z) : bool :=
  (m =? 0)
  || ((e <? 0)%Z && (m * 2 ^ 1075 <=? 10 ^ Z.to_N (- e))).

(** ToBoolean on a Number: false for NaN, +0 and -0. *)
Definition numberToBoolean (n : JSNumber) : bool :=
  match n with
  | NaN => false
  | Infinity _ => true
  | Dec _ m e => negb (roundsToZero m e)
  end.

Fixpoint span (p : codeunit -> bool) (s : jsstring) : jsstring * jsstring :=
  match s with
  | c :: s' =>
      if p c then let (a, b) := span p s' in (c :: a, b) else ([], s)
  | [] => ([], [])
  end.

Definition isHexDigit (c : codeunit) : bool :=
  isDigit c || inRange 65 70 c || inRange 97 102 c.
Definition isOctalDigit (c : codeunit) : bool := inRange 48 55 c.
Definition isBinaryDigit (c : codeunit) : bool := inRange 48 49 c.

Definition digitValue (c : codeunit) : N :=
  if isDigit c then c - 48
  else if inRange 65 70 c then c - 55
  else c - 87.

Definition digitsValue (base : N) (ds : jsstring) : N :=
  fold_left (fun acc d => acc * base + digitValue d) ds 0.

Definition isEmpty (s : jsstring) : bool :=
  match s with [] => true | _ => false end.

(** An optional sign. *)
Definition signOf (s : jsstring) : bool * jsstring :=
  match s with
  | c :: r =>
      if c =? 43 then (false, r)
      else if c =? 45 then (true, r)
      else (false, s)
  | [] => (false, s)
  end.

(** The rest of a decimal literal after its digits: nothing, or an
    ExponentPart [e] / [E], optional sign, at least one digit, up to the
    end of the string. *)
Definition exponentPart (s : jsstring) : option Z :=
  match s with
  | [] => Some 0%Z
  | c :: r =>
      if (c =? 101) || (c =? 69) then
        let (neg, r') := signOf r in
        match span isDigit r' with
        | (d :: ds, []) =>
            let x := Z.of_N (digitsValue 10 (d :: ds)) in
            Some (if neg then (- x)%Z else x)
        | _ => None
        end
      else None
  end.

(** StrUnsignedDecimalLiteral, the whole of [s]. *)
Definition unsignedDecimal (neg : bool) (s : jsstring) : JSNumber :=
  if startsWith (js "Infinity") s && (length s =? 8)%nat then Infinity neg
  else
    let (ip, r) := span isDigit s in
    match r with
    | 46 :: r1 =>
        let (fp, r2) := span isDigit r1 in
        if isEmpty ip && isEmpty fp then NaN
        else match exponentPart r2 with
             | Some x =>
                 Dec neg (digitsValue 10 (ip ++ fp))
                     (x - Z.of_nat (length fp))
             | None => NaN
             end
    | _ =>
        if isEmpty ip then NaN
        else match exponentPart r with
             | Some x => Dec neg (digitsValue 10 ip) x
             | None => NaN
             end
    end.

Definition nonDecimal (base : N) (p : codeunit -> bool) (ds : jsstring) : JSNumber :=
  match span p ds with
  | (d :: ds', []) => ofN (digitsValue base (d :: ds'))
  | _ => NaN
  end.

(** StringToNumber: the string with white space trimmed is empty (+0), a
    binary, octal or hexadecimal integer literal, or a signed decimal
    literal; anything else is NaN. *)
Definition StringToNumber (s : jsstring) : JSNumber :=
  match trim s with
  | [] => zero
  | c :: r =>
      match r with
      | x :: ds =>
          if (c =? 48) && ((x =? 120) || (x =? 88)) then nonDecimal 16 isHexDigit ds
          else if (c =? 48) && ((x =? 111) || (x =? 79)) then nonDecimal 8 isOctalDigit ds
          else if (c =? 48) && ((x =? 98) || (x =? 66)) then nonDecimal 2 isBinaryDigit ds
          else let (neg, t) := signOf (c :: r) in unsignedDecimal neg t
      | [] => let (neg, t) := signOf (c :: r) in unsignedDecimal neg t
      end
  end.

(** [Number(x)] for a value that is a string or [undefined]. *)
Definition Number (x : option jsstring) : JSNumber :=
  match x with
  | None => NaN
  | Some s => StringToNumber s
  end.

(** ** Completions: a value, or a thrown exception *)

Inductive JSError : Type := SyntaxError | TypeError.

Inductive Completion (A : Type) : Type :=
| Normal (a : A)
| Throw (e : JSError).

Arguments Normal {A} a.
Arguments Throw {A} e.

Definition bind {A B : Type} (c : Completion A) (k : A -> Completion B) : Completion B :=
  match c with
  | Normal a => k a
  | Throw e => Throw e
  end.

Notation "x <- c ;; k" := (bind c (fun x => k))
  (at level 61, c at next level, right associativity).

(** [try { c } catch { handler }] *)
Definition tryCatch {A : Type} (c : Completion A) (handler : JSError -> Completion A) : Completion A :=
  match c with
  | Normal a => Normal a
  | Throw e => handler e
  end.

(** [xs.map(f)] and [xs.filter(f)] for a callback that may throw: the
    elements are visited in order and the first exception ends the loop. *)
Fixpoint mapM {A B : Type} (f : A -> Completion B) (xs : list A) : Completion (list B) :=
  match xs with
  | [] => Normal []
  | x :: xs' => y <- f x ;; ys <- mapM f xs' ;; Normal (y :: ys)
  end.

Fixpoint filterM {A : Type} (f : A -> Completion bool) (xs : list A) : Completion (list A) :=
  match xs with
  | [] => Normal []
  | x :: xs' =>
      b <- f x ;; ys <- filterM f xs' ;; Normal (if b then x :: ys else ys)
  end.

(** [xs.some(f)]: stops at the first element for which [f] is true. *)
Fixpoint someM {A : Type} (f : A -> Completion bool) (xs : list A) : Completion bool :=
  match xs with
  | [] => Normal false
  | x :: xs' => b <- f x ;; if b then Normal true else someM f xs'
  end.

(** ** Values that [JSON.parse] can produce *)

Inductive JSValue : Type :=
| VNull
| VBool (b : bool)
| VNumber (n : JSNumber)
| VString (s : jsstring)
| VArray (elems : list JSValue)
| VObject (props : list (jsstring * JSValue)).

(** ToBoolean *)
Definition toBoolean (v : JSValue) : bool :=
  match v with
  | VNull => false
  | VBool b => b
  | VNumber n => numberToBoolean n
  | VString s => negb (isEmpty s)
  | VArray _ => true
  | VObject _ => true
  end.

(** [a || b] *)
Definition orElse (a b : JSValue) : JSValue := if toBoolean a then a else b.

Fixpoint eqString (a b : jsstring) : bool :=
  match a, b with
  | [], [] => true
  | x :: a', y :: b' => (x =? y) && eqString a' b'
  | _, _ => false
  end.

(** CreateDataProperty on an ordinary object: a repeated key overwrites. *)
Fixpoint setProp (k : jsstring) (v : JSValue) (props : list (jsstring * JSValue)) : list (jsstring * JSValue) :=
  match props with
  | [] => [(k, v)]
  | (k', v') :: ps =>
      if eqString k k' then (k', v) :: ps else (k', v') :: setProp k v ps
  end.

(** ** [JSON.parse] *)

Definition isJSONSpace (c : codeunit) : bool :=
  (c =? 32) || (c =? 9) || (c =? 10) || (c =? 13).

Fixpoint skipWS (s : jsstring) : jsstring :=
  match s with
  | c :: s' => if isJSONSpace c then skipWS s' else s
  | [] => []
  end.

(** The character a two-character escape stands for. *)
Definition escapeChar (e : codeunit) : option codeunit :=
  if e =? 34 then Some 34
  else if e =? 92 then Some 92
  else if e =? 47 then Some 47
  else if e =? 98 then Some 8
  else if e =? 102 then Some 12
  else if e =? 110 then Some 10
  else if e =? 114 then Some 13
  else if e =? 116 then Some 9
  else None.

Definition consTo (c : codeunit) (r : option (jsstring * jsstring)) : option (jsstring * jsstring) :=
  match r with
  | Some (str, rest) => Some (c :: str, rest)
  | None => None
  end.

(** The characters of a string literal after its opening quote, and what
    follows the closing quote. *)
Fixpoint stringChars (s : jsstring) : option (jsstring * jsstring) :=
  match s with
  | [] => None
  | c :: r =>
      if c =? 34 then Some ([], r)
      else if c =? 92 then
        match r with
        | [] => None
        | e :: r1 =>
            if e =? 117 then
              match r1 with
              | h1 :: h2 :: h3 :: h4 :: r2 =>
                  if isHexDigit h1 && isHexDigit h2 && isHexDigit h3 && isHexDigit h4
                  then consTo (digitsValue 16 [h1; h2; h3; h4]) (stringChars r2)
                  else None
              | _ => None
              end
            else
              match escapeChar e with
              | Some x => consTo x (stringChars r1)
              | None => None
              end
        end
      else if c <? 32 then None
      else consTo c (stringChars r)
  end.

(** A JSON number at the start of [s]. *)
Definition jsonInt (s : jsstring) : option (jsstring * jsstring) :=
  match s with
  | [] => None
  | d :: r =>
      if d =? 48 then Some ([d], r)
      else if inRange 49 57 d then let (ds, r') := span isDigit r in Some (d :: ds, r')
      else None
  end.

Definition jsonFrac (s : jsstring) : option (jsstring * jsstring) :=
  match s with
  | [] => Some ([], s)
  | c :: r =>
      if c =? 46 then
        match span isDigit r with
        | ([], _) => None
        | (fp, r') => Some (fp, r')
        end
      else Some ([], s)
  end.

Definition jsonExp (s : jsstring) : option (Z * jsstring) :=
  match s with
  | [] => Some (0%Z, s)
  | c :: r =>
      if (c =? 101) || (c =? 69) then
        let (neg, r1) := signOf r in
        match span isDigit r1 with
        | ([], _) => None
        | (ds, r2) =>
            let x := Z.of_N (digitsValue 10 ds) in
            Some (if neg then (- x)%Z else x, r2)
        end
      else Some (0%Z, s)
  end.

Definition jsonNumber (s : jsstring) : option (JSNumber * jsstring) :=
  let (neg, s1) :=
    match s with
    | c :: r => if c =? 45 then (true, r) else (false, s)
    | [] => (false, s)
    end in
  match jsonInt s1 with
  | None => None
  | Some (ip, s2) =>
      match jsonFrac s2 with
      | None => None
      | Some (fp, s3) =>
          match jsonExp s3 with
          | None => None
          | Some (x, s4) =>
              Some (Dec neg (digitsValue 10 (ip ++ fp)) (x - Z.of_nat (length fp)), s4)
          end
      end
  end.

(** Outcome of a parsing function: a value and the unread input, a
    syntax error, or the recursion budget of the embedding used up
    (shown not to happen for the budget [JSON_parse] gives). *)
Inductive parsed (A : Type) : Type :=
| Parsed (a : A) (rest : jsstring)
| Unexpected
| Exhausted.

Arguments Parsed {A} a rest.
Arguments Unexpected {A}.
Arguments Exhausted {A}.

Definition andThen {A B : Type} (p : parsed A) (k : A -> jsstring -> parsed B) : parsed B :=
  match p with
  | Parsed a rest => k a rest
  | Unexpected => Unexpected
  | Exhausted => Exhausted
  end.

Definition keyword (w : string) (v : JSValue) (s : jsstring) : parsed JSValue :=
  if startsWith (js w) s then Parsed v (skipn (length (js w)) s) else Unexpected.

Fixpoint parseValue (fuel : nat) (s : jsstring) : parsed JSValue :=
  match fuel with
  | O => Exhausted
  | S fuel' =>
      match skipWS s with
      | [] => Unexpected
      | c :: r =>
          if c =? 91 then
            match skipWS r with
            | [] => Unexpected
            | c' :: r' =>
                if c' =? 93 then Parsed (VArray []) r'
                else andThen (parseElements fuel' r)
                       (fun vs rest => Parsed (VArray vs) rest)
            end
          else if c =? 123 then
            match skipWS r with
            | [] => Unexpected
            | c' :: r' =>
                if c' =? 125 then Parsed (VObject []) r'
                else andThen (parseMembers fuel' r [])
                       (fun ps rest => Parsed (VObject ps) rest)
            end
          else if c =? 34 then
            match stringChars r with
            | Some (str, rest) => Parsed (VString str) rest
            | None => Unexpected
            end
          else if c =? 116 then keyword "true" (VBool true) (c :: r)
          else if c =? 102 then keyword "false" (VBool false) (c :: r)
          else if c =? 110 then keyword "null" VNull (c :: r)
          else
            match jsonNumber (c :: r) with
            | Some (n, rest) => Parsed (VNumber n) rest
            | None => Unexpected
            end
      end
  end

(** The elements of an array after its opening bracket, up to and
    including the closing bracket. *)
with parseElements (fuel : nat) (s : jsstring) : parsed (list JSValue) :=
  match fuel with
  | O => Exhausted
  | S fuel' =>
      andThen (parseValue fuel' s) (fun v rest =>
        match skipWS rest with
        | [] => Unexpected
        | c :: r =>
            if c =? 44 then
              andThen (parseElements fuel' r)
                (fun vs rest' => Parsed (v :: vs) rest')
            else if c =? 93 then Parsed [v] r
            else Unexpected
        end)
  end

(** The members of an object after its opening brace, added to [acc]. *)
with parseMembers (fuel : nat) (s : jsstring) (acc : list (jsstring * JSValue)) : parsed (list (jsstring * JSValue)) :=
  match fuel with
  | O => Exhausted
  | S fuel' =>
      match skipWS s with
      | [] => Unexpected
      | q :: r =>
          if q =? 34 then
            match stringChars r with
            | None => Unexpected
            | Some (key, r1) =>
                match skipWS r1 with
                | [] => Unexpected
                | colon :: r2 =>
                    if colon =? 58 then
                      andThen (parseValue fuel' r2) (fun v rest =>
                        let acc' := setProp key v acc in
                        match skipWS rest with
                        | [] => Unexpected
                        | c :: r3 =>
                            if c =? 44 then parseMembers fuel' r3 acc'
                            else if c =? 125 then Parsed acc' r3
                            else Unexpected
                        end)
                    else Unexpected
                end
            end
          else Unexpected
      end
  end.

(** [JSON.parse(text)]: one value, surrounded by optional white space. *)
Definition JSON_parse (text : jsstring) : Completion JSValue :=
  match parseValue (2 * length text + 1) text with
  | Parsed v rest => if isEmpty (skipWS rest) then Normal v else Throw SyntaxError
  | _ => Throw SyntaxError
  end.

(** ** The host: locale-dependent services of the runtime

    [toLowerCase] is the Unicode lower-casing of [String.prototype];
    [Date_parse s] is the time value of [new Date(s)] in milliseconds
    since the epoch, [None] when it is NaN (the date is invalid);
    [formatDateTime t] is [toLocaleDateString('de-DE', { day: '2-digit',
    month: '2-digit', year: 'numeric', hour: '2-digit', minute: '2-digit' })]
    of a valid date, in the time zone of the host. *)

Class Host : Type := {
  toLowerCase : jsstring -> jsstring;
  Date_parse : jsstring -> option Z;
  formatDateTime : Z -> jsstring
}.

Definition asciiLower (c : codeunit) : codeunit :=
  if inRange 65 90 c then c + 32 else c.

Definition isASCII (s : jsstring) : Prop := Forall (fun c => c < 128) s.

(** What every conforming host guarantees and the development uses: on
    text made of ASCII code units, lower-casing acts letter by letter. *)
Class HostSpec (H : Host) : Prop := {
  toLowerCase_ascii :
    forall s, isASCII s -> toLowerCase s = map asciiLower s
}.

(** [new Date(s).toLocaleDateString('de-DE', ...)] *)
Definition toLocaleDateString {H : Host} (timeValue : option Z) : jsstring :=
  match timeValue with
  | Some t => formatDateTime t
  | None => js "Invalid Date"
  end.

(** ** The component *)

Module Raw.
(** [RawInstagramPost]: a row as the CSV parser delivers it with
    [header: true]; every field is a string or absent. *)
Record t : Type := {
  date_posted : option jsstring;
  description : option jsstring;
  hashtags : option jsstring;
  clean_description : option jsstring;
  url : option jsstring;
  photos : option jsstring;
  likes : option jsstring;
  num_comments : option jsstring
}.
End Raw.

(** [InstagramPost] as it exists at run time: [hashtags] holds whatever
    [tryParseJSON(...) || []] evaluated to. *)
Record InstagramPost : Type := {
  date_posted : jsstring;
  description : option jsstring;
  hashtags : JSValue;
  clean_description : jsstring;
  url : option jsstring;
  photos : option jsstring;
  likes : JSNumber;
  num_comments : JSNumber
}.

(** ToBoolean of a value that is a string or [undefined]. *)
Definition truthy (x : option jsstring) : bool :=
  match x with
  | Some (_ :: _) => true
  | _ => false
  end.

(** [x || d] for such a value. *)
Definition stringOr (x : option jsstring) (d : jsstring) : jsstring :=
  match x with
  | Some (c :: s) => c :: s
  | _ => d
  end.

(** [n || d] on Numbers. *)
Definition numberOr (n d : JSNumber) : JSNumber :=
  if numberToBoolean n then n else d.

Definition tryParseJSON (str : option jsstring) : Completion JSValue :=
  if negb (truthy str) then Normal (VArray [])
  else
    tryCatch (JSON_parse (replaceEvery 39 [34] (stringOr str [])))
             (fun _ => Normal (VArray [])).

(** [/\s#\w+/] *)
Definition hashtagPattern : regex :=
  Seq (Class isWhiteSpace) (Seq (Lit 35) (Plus (Class isWordChar))).

Definition cleanDescription (text : jsstring) : jsstring :=
  if isEmpty text then []
  else
    let hashtagIndex := search hashtagPattern text in
    if (hashtagIndex >? -1)%Z then trim (slice text 0 hashtagIndex)
    else trim text.

Section Component.
Context {H : Host}.

(** The callback of [.map] in [handleFileUpload]. *)
Definition processPost (post : Raw.t) : Completion InstagramPost :=
  let date := toLocaleDateString (Date_parse (stringOr (Raw.date_posted post) [])) in
  parsedTags <- tryParseJSON (Raw.hashtags post) ;;
  Normal {|
    date_posted := date;
    description := Raw.description post;
    hashtags := orElse parsedTags (VArray []);
    clean_description := cleanDescription (stringOr (Raw.description post) []);
    url := Raw.url post;
    photos := Raw.photos post;
    likes := numberOr (Number (Raw.likes post)) zero;
    num_comments := numberOr (Number (Raw.num_comments post)) zero
  |}.

(** [processedData]: [results.data.filter(...).map(...)] *)
Definition processData (rows : list Raw.t) : Completion (list InstagramPost) :=
  mapM processPost (filter (fun post => truthy (Raw.date_posted post)) rows).

(** The callback of [post.hashtags.some]. *)
Definition tagMatches (searchTerm : jsstring) (tag : JSValue) : Completion bool :=
  match tag with
  | VString t =>
      Normal (includes (toLowerCase t)
                (replaceFirst (js "#") [] (toLowerCase searchTerm)))
  | _ => Throw TypeError
  end.

(** The callback of [posts.filter] in [searchPosts]. *)
Definition postMatches (searchTerm : jsstring) (isHashtagSearch : bool)
    (post : InstagramPost) : Completion bool :=
  if isHashtagSearch then
    match hashtags post with
    | VArray tags => someM (tagMatches searchTerm) tags
    | _ => Throw TypeError
    end
  else
    Normal (includes (toLowerCase (clean_description post))
              (toLowerCase searchTerm)).

(** What [searchPosts] hands to [setSearchResults]. *)
Definition searchIn (posts : list InstagramPost) (searchTerm : jsstring)
    (isHashtagSearch : bool) : Completion (list InstagramPost) :=
  if isEmpty searchTerm then Normal posts
  else filterM (postMatches searchTerm isHashtagSearch) posts.

(** The state of the component and the diagnostic channel. *)
Record State : Type := {
  posts : list InstagramPost;
  searchTerm : jsstring;
  isHashtagSearch : bool;
  searchResults : list InstagramPost;
  console : list (jsstring * jsstring)
}.

Definition setPosts (v : list InstagramPost) (st : State) : State :=
  {| posts := v; searchTerm := searchTerm st;
     isHashtagSearch := isHashtagSearch st;
     searchResults := searchResults st; console := console st |}.

Definition setSearchResults (v : list InstagramPost) (st : State) : State :=
  {| posts := posts st; searchTerm := searchTerm st;
     isHashtagSearch := isHashtagSearch st;
     searchResults := v; console := console st |}.

Definition console_error (label message : jsstring) (st : State) : State :=
  {| posts := posts st; searchTerm := searchTerm st;
     isHashtagSearch := isHashtagSearch st;
     searchResults := searchResults st;
     console := console st ++ [(label, message)] |}.

Definition initialState : State :=
  {| posts := []; searchTerm := []; isHashtagSearch := false;
     searchResults := []; console := [] |}.

(** [Papa.ParseResult]: the rows, and the row-level problems the parser
    noted while it still delivered rows. *)
Record ParseResult : Type := {
  data : list Raw.t;
  errors : list jsstring
}.

(** Which of the two callbacks given to [Papa.parse] is invoked. *)
Inductive PapaOutcome : Type :=
| Complete (results : ParseResult)
| Error (error : jsstring).

Definition handleFileUpload (file : option jsstring) (outcome : PapaOutcome)
    (st : State) : Completion State :=
  match file with
  | None => Normal st
  | Some _ =>
      match outcome with
      | Complete results =>
          processedData <- processData (data results) ;;
          Normal (setSearchResults processedData (setPosts processedData st))
      | Error error =>
          Normal (console_error (js "Error parsing CSV:") error st)
      end
  end.

Definition searchPosts (st : State) : Completion State :=
  results <- searchIn (posts st) (searchTerm st) (isHashtagSearch st) ;;
  Normal (setSearchResults results st).

End Component.

(** ** The rest of the component: embed address, media, highlighting,
    events *)

(** [s.split(c)] for a separator of one character: the pieces between
    the occurrences of [c]; there is always at least one piece. *)
Fixpoint splitOn (c : codeunit) (s : jsstring) : list jsstring :=
  match s with
  | [] => [[]]
  | x :: s' =>
      if x =? c then [] :: splitOn c s'
      else match splitOn c s' with
           | seg :: segs => (x :: seg) :: segs
           | [] => [[x]]
           end
  end.

(** [xs.slice(start)] on an array. *)
Definition arraySlice {A : Type} (xs : list A) (start : Z) : list A :=
  skipn (Z.to_nat (sliceIndex (Z.of_nat (length xs)) start)) xs.

(** A value that is a string or [undefined], inside a template literal. *)
Definition templateString (v : option jsstring) : jsstring :=
  match v with
  | Some s => s
  | None => js "undefined"
  end.

Definition createEmbedHtml (url : jsstring) : jsstring :=
  let postId := nth_error (arraySlice (splitOn 47 url) (-2)) 0 in
  js "https://www.instagram.com/p/" ++ templateString postId ++ js "/embed".

(** The own property [k] of an object. *)
Fixpoint getProp (k : jsstring) (props : list (jsstring * JSValue)) : option JSValue :=
  match props with
  | [] => None
  | (k', v) :: ps => if eqString k k' then Some v else getProp k ps
  end.

(** [v?.[0]]: [None] stands for [undefined]. *)
Definition firstOf (v : JSValue) : option JSValue :=
  match v with
  | VNull => None
  | VBool _ => None
  | VNumber _ => None
  | VString [] => None
  | VString (c :: _) => Some (VString [c])
  | VArray [] => None
  | VArray (x :: _) => Some x
  | VObject props => getProp (js "0") props
  end.

(** What the right half of a card shows. *)
Inductive Media : Type :=
| Iframe (src : jsstring)
| Image (src : option JSValue)
| NoMedia.

(** [post.url ? <iframe .../> : post.photos ? <Image .../> : null] *)
Definition media (post : InstagramPost) : Completion Media :=
  if truthy (url post) then
    Normal (Iframe (createEmbedHtml (stringOr (url post) [])))
  else if truthy (photos post) then
    parsedPhotos <- tryParseJSON (photos post) ;;
    Normal (Image (firstOf parsedPhotos))
  else Normal NoMedia.

Section Events.
Context {H : Host}.

(** Whether a tag of a displayed Post gets the highlight colours. *)
Definition tagHighlighted (searchTerm : jsstring) (isHashtagSearch : bool)
    (tag : jsstring) : bool :=
  isHashtagSearch && includes (toLowerCase tag) (toLowerCase searchTerm).

Definition setSearchTerm (v : jsstring) (st : State) : State :=
  {| posts := posts st; searchTerm := v;
     isHashtagSearch := isHashtagSearch st;
     searchResults := searchResults st; console := console st |}.

Definition setIsHashtagSearch (v : bool) (st : State) : State :=
  {| posts := posts st; searchTerm := searchTerm st;
     isHashtagSearch := v;
     searchResults := searchResults st; console := console st |}.

(** What the user and the CSV parser can do to the component. *)
Inductive Event : Type :=
| FileChosen (file : option jsstring) (outcome : PapaOutcome)
| TermTyped (value : jsstring)
| ModeToggled (checked : bool)
| SearchClicked.

Definition handle (e : Event) (st : State) : Completion State :=
  match e with
  | FileChosen file outcome => handleFileUpload file outcome st
  | TermTyped value => Normal (setSearchTerm value st)
  | ModeToggled checked => Normal (setIsHashtagSearch checked st)
  | SearchClicked => searchPosts st
  end.

(** A handler that throws has not called a setter: the state stays. *)
Definition step (st : State) (e : Event) : State :=
  match handle e st with
  | Normal st' => st'
  | Throw _ => st
  end.

Definition run (events : list Event) (st : State) : State :=
  fold_left step events st.

End Events.

(** ** A reference host

    Lower-casing is exact on Latin-1 text.  Dates are read in the
    ECMAScript date-time string format with a four-digit year
    ([YYYY], [YYYY-MM], [YYYY-MM-DD], optionally followed by [THH:mm],
    [THH:mm:ss] or [THH:mm:ss.sss] and then [Z] or an offset [+HH:mm] /
    [-HH:mm]); other texts are invalid dates.  The time zone is UTC. *)

Module RefHost.

Definition lowerLatin1 (c : codeunit) : codeunit :=
  if inRange 65 90 c || (inRange 192 222 c && negb (c =? 215)) then c + 32
  else c.

(** Exactly [n] decimal digits at the start of [s]. *)
Fixpoint digitsN (n : nat) (acc : N) (s : jsstring) : option (N * jsstring) :=
  match n with
  | O => Some (acc, s)
  | S n' =>
      match s with
      | c :: r =>
          if isDigit c then digitsN n' (acc * 10 + (c - 48)) r else None
      | [] => None
      end
  end.

(** [sep] followed by two digits, when [s] starts with [sep]. *)
Definition field (sep : codeunit) (s : jsstring) : option (option N * jsstring) :=
  match s with
  | c :: r =>
      if c =? sep then
        match digitsN 2 0 r with
        | Some (v, r') => Some (Some v, r')
        | None => None
        end
      else Some (None, s)
  | [] => Some (None, s)
  end.

Definition isLeap (y : Z) : bool :=
  ((y mod 4 =? 0) && negb (y mod 100 =? 0) || (y mod 400 =? 0))%Z.

Definition daysInMonth (y : Z) (m : N) : N :=
  if m =? 2 then (if isLeap y then 29 else 28)
  else if (m =? 4) || (m =? 6) || (m =? 9) || (m =? 11) then 30
  else 31.

(** Day number of a civil date, counted from 1970-01-01. *)
Definition daysFromCivil (y : Z) (m d : Z) : Z :=
  (let y' := if m <=? 2 then y - 1 else y in
   let era := y' / 400 in
   let yoe := y' - era * 400 in
   let doy := (153 * (if m >? 2 then m - 3 else m + 9) + 2) / 5 + d - 1 in
   let doe := yoe * 365 + yoe / 4 - yoe / 100 + doy in
   era * 146097 + doe - 719468)%Z.

(** Year, month and day of a day number. *)
Definition civilFromDays (z : Z) : Z * Z * Z :=
  (let z := z + 719468 in
   let era := z / 146097 in
   let doe := z - era * 146097 in
   let yoe := (doe - doe / 1460 + doe / 36524 - doe / 146096) / 365 in
   let doy := doe - (365 * yoe + yoe / 4 - yoe / 100) in
   let mp := (5 * doy + 2) / 153 in
   let d := doy - (153 * mp + 2) / 5 + 1 in
   let m := if mp <? 10 then mp + 3 else mp - 9 in
   (if m <=? 2 then yoe + era * 400 + 1 else yoe + era * 400, m, d))%Z.

(** The time of day after [T]: minutes past midnight are all the
    formatter needs besides the date, but seconds and milliseconds are
    part of the time value. *)
Definition timeOfDay (s : jsstring) : option (Z * jsstring) :=
  match digitsN 2 0 s with
  | None => None
  | Some (hh, r) =>
      match r with
      | c :: r1 =>
          if c =? 58 then
            match digitsN 2 0 r1 with
            | None => None
            | Some (mm, r2) =>
                match field 58 r2 with
                | None => None
                | Some (None, r3) =>
                    if (hh <=? 23) && (mm <=? 59) || ((hh =? 24) && (mm =? 0))
                    then Some (Z.of_N ((hh * 60 + mm) * 60000), r3)
                    else None
                | Some (Some ss, r3) =>
                    let frac :=
                      match r3 with
                      | dot :: r4 =>
                          if dot =? 46 then
                            match digitsN 3 0 r4 with
                            | Some (ms, r5) => Some (ms, r5)
                            | None => None
                            end
                          else Some (0, r3)
                      | [] => Some (0, r3)
                      end in
                    match frac with
                    | None => None
                    | Some (ms, r5) =>
                        if (hh <=? 23) && (mm <=? 59) && (ss <=? 59)
                           || ((hh =? 24) && (mm =? 0) && (ss =? 0) && (ms =? 0))
                        then Some (Z.of_N (((hh * 60 + mm) * 60 + ss) * 1000 + ms), r5)
                        else None
                    end
                end
            end
          else None
      | [] => None
      end
  end.

(** [Z], or a signed [HH:mm] offset, up to the end of the text: the
    milliseconds to subtract. *)
Definition zoneOffset (s : jsstring) : option Z :=
  match s with
  | [] => Some 0%Z
  | c :: r =>
      if c =? 90 then (if isEmpty r then Some 0%Z else None)
      else if (c =? 43) || (c =? 45) then
        match digitsN 2 0 r with
        | Some (hh, c2 :: r1) =>
            if c2 =? 58 then
              match digitsN 2 0 r1 with
              | Some (mm, []) =>
                  if (hh <=? 23) && (mm <=? 59) then
                    let ms := Z.of_N ((hh * 60 + mm) * 60000) in
                    Some (if c =? 43 then ms else (- ms)%Z)
                  else None
              | _ => None
              end
            else None
        | _ => None
        end
      else None
  end.

Definition parseISO (s : jsstring) : option Z :=
  match digitsN 4 0 s with
  | None => None
  | Some (y, r) =>
      match field 45 r with
      | None => None
      | Some (mo, r1) =>
          match (match mo with
                 | Some _ => field 45 r1
                 | None => Some (None, r1)
                 end) with
          | None => None
          | Some (dy, r2) =>
              let m := match mo with Some m => m | None => 1 end in
              let d := match dy with Some d => d | None => 1 end in
              if (1 <=? m) && (m <=? 12) && (1 <=? d)
                 && (d <=? daysInMonth (Z.of_N y) m)
              then
                let day := (daysFromCivil (Z.of_N y) (Z.of_N m) (Z.of_N d) * 86400000)%Z in
                match r2 with
                | [] => Some day
                | c :: r3 =>
                    if c =? 84 then
                      match timeOfDay r3 with
                      | Some (t, r4) =>
                          match zoneOffset r4 with
                          | Some off => Some (day + t - off)%Z
                          | None => None
                          end
                      | None => None
                      end
                    else None
                end
              else None
          end
      end
  end.

Definition decimal (n : N) : jsstring :=
  js (DecimalString.NilZero.string_of_uint (N.to_uint n)).

Definition pad2 (n : N) : jsstring :=
  if n <? 10 then 48 :: decimal n else decimal n.

(** [DD.MM.YYYY, HH:mm] in UTC. *)
Definition format (t : Z) : jsstring :=
  let day := (t / 86400000)%Z in
  let minutes := ((t mod 86400000) / 60000)%Z in
  let '(y, m, d) := civilFromDays day in
  pad2 (Z.to_N d) ++ js "." ++ pad2 (Z.to_N m) ++ js "."
    ++ decimal (Z.to_N y) ++ js ", "
    ++ pad2 (Z.to_N (minutes / 60)) ++ js ":" ++ pad2 (Z.to_N (minutes mod 60)).

#[export] Instance host : Host := {
  toLowerCase := map lowerLatin1;
  Date_parse := parseISO;
  formatDateTime := format
}.

End RefHost.

(** ** Notions used to state the properties *)

(** The strings a regular expression denotes. *)
Inductive matches : regex -> jsstring -> Prop :=
| MEps : matches Eps []
| MClass (p : codeunit -> bool) (c : codeunit) :
    p c = true -> matches (Class p) [c]
| MSeq (r1 r2 : regex) (s1 s2 : jsstring) :
    matches r1 s1 -> matches r2 s2 -> matches (Seq r1 r2) (s1 ++ s2)
| MAltL (r1 r2 : regex) (s : jsstring) :
    matches r1 s -> matches (Alt r1 r2) s
| MAltR (r1 r2 : regex) (s : jsstring) :
    matches r2 s -> matches (Alt r1 r2) s
| MStarNil (r : regex) : matches (Star r) []
| MStarApp (r : regex) (s1 s2 : jsstring) :
    matches r s1 -> matches (Star r) s2 -> matches (Star r) (s1 ++ s2).

(** A white-space character, a [#] and a word character start at
    position [i] of [text]: a match of [/\s#\w+/] starts there. *)
Definition tagAt (text : jsstring) (i : nat) : Prop :=
  exists w c rest,
    skipn i text = w :: 35 :: c :: rest
    /\ isWhiteSpace w = true /\ isWordChar c = true.

(** A decimal literal: optional minus sign, integer digits and, when
    [fp] is not empty, a point and fraction digits. *)
Definition decimalLiteral (neg : bool) (ip fp : jsstring) : jsstring :=
  (if neg then [45] else [])
  ++ ip ++ match fp with [] => [] | _ :: _ => 46 :: fp end.

(** [Number(raw) || 0], the expression that fills [likes] and
    [num_comments]. *)
Definition coerceCount (raw : option jsstring) : JSNumber :=
  numberOr (Number raw) zero.

(** The strings of an array of strings. *)
Fixpoint stringsOf (vs : list JSValue) : option (list jsstring) :=
  match vs with
  | [] => Some []
  | VString s :: vs' =>
      match stringsOf vs' with
      | Some ss => Some (s :: ss)
      | None => None
      end
  | _ :: _ => None
  end.

(** The tags of a Post whose [hashtags] is an array of strings, as the
    interface [InstagramPost] declares it. *)
Definition tagsOf (post : InstagramPost) : option (list jsstring) :=
  match hashtags post with
  | VArray vs => stringsOf vs
  | _ => None
  end.

Definition wellTyped (post : InstagramPost) : Prop := tagsOf post <> None.

Definition tagList (post : InstagramPost) : list jsstring :=
  match tagsOf post with
  | Some tags => tags
  | None => []
  end.

(** A row that has only a date and a tag field. *)
Definition rowOf (date tags : option jsstring) : Raw.t :=
  {| Raw.date_posted := date; Raw.description := None;
     Raw.hashtags := tags; Raw.clean_description := None;
     Raw.url := None; Raw.photos := None;
     Raw.likes := None; Raw.num_comments := None |}.

(** A Post that has only a description and tags. *)
Definition postOf (text : jsstring) (tags : JSValue) : InstagramPost :=
  {| date_posted := []; description := None; hashtags := tags;
     clean_description := text; url := None; photos := None;
     likes := zero; num_comments := zero |}.

(** [parts.join(sep)] *)
Fixpoint joinWith (sep : jsstring) (parts : list jsstring) : jsstring :=
  match parts with
  | [] => []
  | [x] => x
  | x :: rest => x ++ sep ++ joinWith sep rest
  end.

Definition quoted (tag : jsstring) : jsstring := 39 :: tag ++ [39].

(** A list of tags written the way the tag column holds it: each tag
    between single quotes, [sep] between tags, square brackets around. *)
Definition encodeTags (sep : jsstring) (tags : list jsstring) : jsstring :=
  91 :: joinWith sep (map quoted tags) ++ [93].

(** A character that stands for itself inside a JSON string and is not a
    quote of either kind. *)
Definition isPlain (c : codeunit) : bool :=
  negb (c =? 39) && negb (c =? 34) && negb (c =? 92) && (32 <=? c).

(** What a parsing function leaves unread is shorter than [s]. *)
Definition shrinks {A : Type} (p : parsed A) (s : jsstring) : Prop :=
  match p with
  | Parsed _ rest => (length rest < length s)%nat
  | _ => True
  end.

(** After the text of a tag and its closing quote, the next character
    that is not JSON white space is neither a comma nor a closing
    bracket. *)
Definition noDelimiterFollows (v : jsstring) : bool :=
  match skipWS v with
  | c :: _ => negb ((c =? 44) || (c =? 93))
  | [] => true
  end.

Definition notParsed {A : Type} (p : parsed A) : Prop :=
  match p with
  | Parsed _ _ => False
  | _ => True
  end.

(** The text of an array after its opening bracket: the string literals
    of [pre], each followed by a comma and [spaces], and then [k]. *)
Fixpoint leading (spaces : jsstring) (pre : list jsstring) (k : jsstring) : jsstring :=
  match pre with
  | [] => k
  | t :: pre' => 34 :: t ++ 34 :: 44 :: spaces ++ leading spaces pre' k
  end.

(** [xs] is [ys] with some elements left out, the order kept. *)
Inductive Subseq {A : Type} : list A -> list A -> Prop :=
| SubseqNil : Subseq [] []
| SubseqSkip (y : A) (xs ys : list A) : Subseq xs ys -> Subseq xs (y :: ys)
| SubseqKeep (x : A) (xs ys : list A) : Subseq xs ys -> Subseq (x :: xs) (x :: ys).

(** What the loader establishes of a Post. *)
Definition normalised (post : InstagramPost) : Prop :=
  likes post <> NaN /\ num_comments post <> NaN
  /\ toBoolean (hashtags post) = true
  /\ search hashtagPattern (clean_description post) = (-1)%Z
  /\ trim (clean_description post) = clean_description post.

(** What every step of the component keeps. *)
Definition invariant (st : State) : Prop :=
  Subseq (searchResults st) (posts st) /\ Forall normalised (posts st).

(** A character that no numeric literal contains. *)
Definition outsideNumbers (c : codeunit) : bool :=
  negb (isDigit c || inRange 65 90 c || inRange 97 122 c
        || (c =? 43) || (c =? 45) || (c =? 46)).

(** Readings of the specification that the code does not implement; they
    are what the refuted statements are measured against. *)
Module AsStated.

(** A date field that is non-empty and parseable as a date-time. *)
Definition parseableDate {H : Host} (x : option jsstring) : bool :=
  truthy x
  && match Date_parse (stringOr x []) with
     | Some _ => true
     | None => false
     end.

(** The query with a leading [#], if any, removed. *)
Definition stripLeadingHash (q : jsstring) : jsstring :=
  match q with
  | c :: q' => if c =? 35 then q' else q
  | [] => []
  end.

(** A query that is empty or consists of white space only. *)
Definition blank (q : jsstring) : bool := forallb isWhiteSpace q.

End AsStated.

(* ================================================================== *)
(** * Part II. Properties *)
(* ================================================================== *)

Ltac inv H := inversion H; subst; clear H.

Ltac by_cases :=
  repeat match goal with
         | |- context [?a =? ?b] => destruct (N.eqb_spec a b); try lia
         | |- context [?a <=? ?b] => destruct (N.leb_spec a b); try lia
         end; try reflexivity; try discriminate.

(** ** Strings *)

Lemma startsWith_nil (s : jsstring) : startsWith [] s = true.
Proof. destruct s; reflexivity. Qed.

Lemma includes_nil (s : jsstring) : includes s [] = true.
Proof. destruct s; reflexivity. Qed.

Lemma startsWith_app (p s : jsstring) :
  startsWith p s = true <-> exists t, s = p ++ t.
Proof.
  revert s; induction p as [|x p IH]; intros s.
  - rewrite startsWith_nil. split; [exists s; reflexivity | reflexivity].
  - destruct s as [|y s]; simpl.
    + split; [discriminate | intros [t Ht]; discriminate].
    + rewrite andb_true_iff, N.eqb_eq, IH. split.
      * intros [-> [t ->]]. exists t; reflexivity.
      * intros [t Ht]. injection Ht as -> ->. split; [reflexivity | exists t; reflexivity].
Qed.

(** [includes] is substring containment. *)
Lemma includes_substring (s needle : jsstring) :
  includes s needle = true <-> exists a b, s = a ++ needle ++ b.
Proof.
  induction s as [|c s IH].
  - simpl. rewrite orb_false_r, startsWith_app. split.
    + intros [t Ht]. exists [], t. exact Ht.
    + intros [a [b Hab]]. destruct a; [exists b; exact Hab | discriminate].
  - simpl. rewrite orb_true_iff, startsWith_app, IH. split.
    + intros [[t Ht] | [a [b Hab]]].
      * exists [], t. exact Ht.
      * exists (c :: a), b. simpl. now rewrite Hab.
    + intros [a [b Hab]]. destruct a as [|x a].
      * left. exists b. exact Hab.
      * right. injection Hab as -> ->. exists a, b. reflexivity.
Qed.

Lemma trimStart_suffix (s : jsstring) : exists a, s = a ++ trimStart s.
Proof.
  induction s as [|c s [a IH]]; simpl.
  - exists []. reflexivity.
  - destruct (isWhiteSpace c).
    + exists (c :: a). simpl. now rewrite <- IH.
    + exists []. reflexivity.
Qed.

Lemma trim_infix (s : jsstring) : exists a b, s = a ++ trim s ++ b.
Proof.
  unfold trim, trimEnd.
  destruct (trimStart_suffix s) as [a Ha].
  destruct (trimStart_suffix (rev (trimStart s))) as [b Hb].
  exists a, (rev b).
  rewrite <- rev_app_distr, <- Hb, rev_involutive. exact Ha.
Qed.

Lemma slice_prefix (s : jsstring) (k : nat) :
  (k <= length s)%nat -> slice s 0 (Z.of_nat k) = firstn k s.
Proof.
  intros Hk. unfold slice, sliceIndex.
  replace (0 <? 0)%Z with false by reflexivity.
  destruct (Z.of_nat k <? 0)%Z eqn:Hneg; [apply Z.ltb_lt in Hneg; lia|].
  rewrite Z.min_l by lia. rewrite Z.min_l by lia.
  rewrite Z.sub_0_r, Nat2Z.id. reflexivity.
Qed.

(** ** Regular expressions: the matcher is sound and complete *)

Lemma nullable_matches (r : regex) : nullable r = true <-> matches r [].
Proof.
  induction r as [| |p|r1 IH1 r2 IH2|r1 IH1 r2 IH2|r IH]; simpl.
  - split; [discriminate | intros Hm; inv Hm].
  - split; [constructor | reflexivity].
  - split; [discriminate | intros Hm; inv Hm].
  - rewrite andb_true_iff, IH1, IH2. split.
    + intros [H1 H2]. exact (MSeq H1 H2).
    + intros Hm. inversion Hm as [| |? ? s1 s2 H1 H2 E1 E2| | | |].
      apply app_eq_nil in E2. destruct E2; subst. now split.
  - rewrite orb_true_iff, IH1, IH2. split.
    + intros [Hm | Hm]; [now apply MAltL | now apply MAltR].
    + intros Hm. inv Hm; [now left | now right].
  - split; [constructor | reflexivity].
Qed.

Lemma star_unfold (r : regex) (c : codeunit) (s : jsstring) :
  matches (Star r) (c :: s) ->
  exists s1 s2, s = s1 ++ s2 /\ matches r (c :: s1) /\ matches (Star r) s2.
Proof.
  intros Hm.
  remember (Star r) as R eqn:ER. remember (c :: s) as t eqn:Et.
  revert s Et.
  induction Hm as [| | | | | |r' s1 s2 H1 _ H2 IH2]; intros u Et; try discriminate.
  injection ER as ->.
  destruct s1 as [|x s1]; simpl in Et.
  - apply IH2; [reflexivity | exact Et].
  - injection Et as -> <-. exists s1, s2. now repeat split.
Qed.

Lemma seq_cons (r1 r2 : regex) (c : codeunit) (s : jsstring) :
  matches (Seq r1 r2) (c :: s) ->
  (matches r1 [] /\ matches r2 (c :: s))
  \/ exists s1 s2, s = s1 ++ s2 /\ matches r1 (c :: s1) /\ matches r2 s2.
Proof.
  intros Hm. inversion Hm as [| |? ? s1 s2 H1 H2 E1 E2| | | |].
  destruct s1 as [|x s1]; simpl in E2.
  - left. subst. now split.
  - right. injection E2 as -> <-. exists s1, s2. now repeat split.
Qed.

Lemma seq_split (r1 r2 : regex) (s : jsstring) :
  matches (Seq r1 r2) s ->
  exists s1 s2, s = s1 ++ s2 /\ matches r1 s1 /\ matches r2 s2.
Proof.
  intros Hm. inversion Hm as [| |? ? s1 s2 H1 H2 E1 E2| | | |].
  exists s1, s2. now repeat split.
Qed.

Lemma class_single (p : codeunit -> bool) (s : jsstring) :
  matches (Class p) s -> exists c, s = [c] /\ p c = true.
Proof. intros Hm. inv Hm. eexists. now split. Qed.

Lemma deriv_matches (r : regex) (c : codeunit) (s : jsstring) :
  matches (deriv c r) s <-> matches r (c :: s).
Proof.
  revert s.
  induction r as [| |p|r1 IH1 r2 IH2|r1 IH1 r2 IH2|r IH]; intros s; simpl.
  - split; intros Hm; inv Hm.
  - split; intros Hm; inv Hm.
  - split.
    + destruct (p c) eqn:Hp; intros Hm; inv Hm. now constructor.
    + intros Hm. apply class_single in Hm. destruct Hm as [x [E Hx]].
      injection E as E1 E2. subst. rewrite Hx. constructor.
  - destruct (nullable r1) eqn:Hn.
    + split.
      * intros Hm. inv Hm.
        -- match goal with Hl : matches (Seq _ _) _ |- _ =>
             apply seq_split in Hl; destruct Hl as [s1 [s2 [-> [H1 H2]]]] end.
           apply IH1 in H1. exact (MSeq H1 H2).
        -- match goal with Hr : matches (deriv _ _) _ |- _ => apply IH2 in Hr;
             apply nullable_matches in Hn; exact (MSeq Hn Hr) end.
      * intros Hm. apply seq_cons in Hm.
        destruct Hm as [[_ H2] | [s1 [s2 [-> [H1 H2]]]]].
        -- apply MAltR. now apply IH2.
        -- apply MAltL. apply MSeq; [now apply IH1 | exact H2].
    + split.
      * intros Hm. apply seq_split in Hm. destruct Hm as [s1 [s2 [-> [H1 H2]]]].
        apply IH1 in H1. exact (MSeq H1 H2).
      * intros Hm. apply seq_cons in Hm.
        destruct Hm as [[H1 _] | [s1 [s2 [-> [H1 H2]]]]].
        -- apply nullable_matches in H1. congruence.
        -- apply MSeq; [now apply IH1 | exact H2].
  - split; intros Hm; inv Hm;
      solve [apply MAltL; now apply IH1 | apply MAltR; now apply IH2].
  - split.
    + intros Hm. apply seq_split in Hm. destruct Hm as [s1 [s2 [-> [H1 H2]]]].
      apply IH in H1. exact (MStarApp H1 H2).
    + intros Hm. apply star_unfold in Hm. destruct Hm as [s1 [s2 [-> [H1 H2]]]].
      apply MSeq; [now apply IH | exact H2].
Qed.

(** [matchesAtStart r s] holds exactly when a prefix of [s] is in the
    language of [r]. *)
Lemma matchesAtStart_prefix (r : regex) (s : jsstring) :
  matchesAtStart r s = true <-> exists p q, s = p ++ q /\ matches r p.
Proof.
  revert r. induction s as [|c s IH]; intros r; simpl.
  - rewrite orb_false_r, nullable_matches. split.
    + intros Hm. exists [], []. now split.
    + intros [p [q [E Hm]]]. symmetry in E. apply app_eq_nil in E.
      destruct E; now subst.
  - rewrite orb_true_iff, nullable_matches, IH. split.
    + intros [Hm | [p [q [-> Hm]]]].
      * exists [], (c :: s). now split.
      * exists (c :: p), q. split; [reflexivity | now apply deriv_matches].
    + intros [p [q [E Hm]]]. destruct p as [|x p]; simpl in E.
      * now left.
      * injection E as <- ->. right. exists p, q.
        split; [reflexivity | now apply deriv_matches].
Qed.

(** A match of [/\s#\w+/] starts at the head of [s] exactly when [s]
    begins with a white-space character, [#] and a word character. *)
Lemma hashtagPattern_shape (s : jsstring) :
  matchesAtStart hashtagPattern s = true
  <-> exists w c rest,
        s = w :: 35 :: c :: rest
        /\ isWhiteSpace w = true /\ isWordChar c = true.
Proof.
  rewrite matchesAtStart_prefix. unfold hashtagPattern, Lit, Plus. split.
  - intros [p [q [-> Hm]]].
    apply seq_split in Hm. destruct Hm as [s1 [s2 [-> [H1 H2]]]].
    apply class_single in H1. destruct H1 as [w [-> Hw]].
    apply seq_split in H2. destruct H2 as [s3 [s4 [-> [H3 H4]]]].
    apply class_single in H3. destruct H3 as [h [-> Hh]].
    apply seq_split in H4. destruct H4 as [s5 [s6 [-> [H5 _]]]].
    apply class_single in H5. destruct H5 as [c [-> Hc]].
    apply N.eqb_eq in Hh. subst h.
    exists w, c, (s6 ++ q). split; [reflexivity | now split].
  - intros [w [c [rest [-> [Hw Hc]]]]].
    exists [w; 35; c], rest. split; [reflexivity|].
    change [w; 35; c] with ([w] ++ [35] ++ [c] ++ []).
    apply MSeq; [now constructor|].
    apply MSeq; [constructor; apply N.eqb_refl|].
    apply MSeq; [now constructor | constructor].
Qed.

(** ** [search]: the leftmost match *)

Lemma searchFrom_None (r : regex) (s : jsstring) (i : nat) :
  searchFrom r s i = None
  <-> forall a b, s = a ++ b -> matchesAtStart r b = false.
Proof.
  revert i. induction s as [|c s IH]; intros i.
  - cbn [searchFrom]. destruct (matchesAtStart r []) eqn:Hm.
    + split; [discriminate|]. intros Hall.
      rewrite (Hall [] [] eq_refl) in Hm. discriminate.
    + split; [|reflexivity]. intros _ a b E.
      symmetry in E. apply app_eq_nil in E. destruct E; now subst.
  - cbn [searchFrom]. destruct (matchesAtStart r (c :: s)) eqn:Hm.
    + split; [discriminate|]. intros Hall.
      rewrite (Hall [] (c :: s) eq_refl) in Hm. discriminate.
    + rewrite IH. split.
      * intros Hall a b E. destruct a as [|x a]; simpl in E.
        -- now subst.
        -- injection E as _ E. exact (Hall a b E).
      * intros Hall a b E. apply (Hall (c :: a) b). simpl. now rewrite E.
Qed.

Lemma searchFrom_Some (r : regex) (s : jsstring) (i k : nat) :
  searchFrom r s i = Some k ->
  exists a b,
    s = a ++ b /\ k = (i + length a)%nat /\ matchesAtStart r b = true
    /\ forall a' b', s = a' ++ b' -> (length a' < length a)%nat ->
                     matchesAtStart r b' = false.
Proof.
  revert i. induction s as [|c s IH]; intros i; cbn [searchFrom].
  - destruct (matchesAtStart r []) eqn:Hm; [|discriminate].
    intros E. injection E as <-. exists [], []. simpl.
    repeat split; [lia | exact Hm | intros; lia].
  - destruct (matchesAtStart r (c :: s)) eqn:Hm.
    + intros E. injection E as <-. exists [], (c :: s). simpl.
      repeat split; [lia | exact Hm | intros; lia].
    + intros E. apply IH in E. destruct E as [a [b [-> [-> [Hb Hleast]]]]].
      exists (c :: a), b. simpl. repeat split; [lia | exact Hb |].
      intros a' b' E Hlen. destruct a' as [|x a']; simpl in E.
      * now subst.
      * injection E as _ E. apply (Hleast a' b' E). simpl in Hlen. lia.
Qed.

(** [search] returns the position of the first place where a match
    starts, and -1 when there is none. *)
Lemma search_first (r : regex) (a b : jsstring) :
  matchesAtStart r b = true ->
  (forall a' b', a ++ b = a' ++ b' -> (length a' < length a)%nat ->
                 matchesAtStart r b' = false) ->
  search r (a ++ b) = Z.of_nat (length a).
Proof.
  intros Hb Hleast. unfold search.
  destruct (searchFrom r (a ++ b) 0) as [k|] eqn:Hs.
  - apply searchFrom_Some in Hs.
    destruct Hs as [a1 [b1 [E [-> [Hb1 Hleast1]]]]]. simpl.
    destruct (Nat.lt_trichotomy (length a1) (length a)) as [Hlt | [Heq | Hgt]].
    + rewrite (Hleast a1 b1 E Hlt) in Hb1. discriminate.
    + now rewrite Heq.
    + rewrite (Hleast1 a b eq_refl Hgt) in Hb. discriminate.
  - rewrite searchFrom_None in Hs. rewrite (Hs a b eq_refl) in Hb. discriminate.
Qed.

Lemma search_none (r : regex) (s : jsstring) :
  search r s = (-1)%Z
  <-> forall a b, s = a ++ b -> matchesAtStart r b = false.
Proof.
  unfold search. destruct (searchFrom r s 0) as [k|] eqn:Hs.
  - split; [lia|]. intros Hall. apply searchFrom_Some in Hs.
    destruct Hs as [a [b [E [_ [Hb _]]]]]. rewrite (Hall a b E) in Hb. discriminate.
  - rewrite searchFrom_None in Hs. split; [intros _; exact Hs | reflexivity].
Qed.

(** ** [cleanDescription] *)

Lemma tagAt_split (text : jsstring) (i : nat) :
  tagAt text i ->
  exists a b, text = a ++ b /\ length a = i
              /\ matchesAtStart hashtagPattern b = true.
Proof.
  intros [w [c [rest [E [Hw Hc]]]]].
  exists (firstn i text), (skipn i text). repeat split.
  - symmetry. apply firstn_skipn.
  - apply firstn_length_le.
    destruct (Nat.le_gt_cases i (length text)) as [Hle | Hgt]; [exact Hle|].
    rewrite skipn_all2 in E by lia. discriminate.
  - rewrite E. apply hashtagPattern_shape. exists w, c, rest. now repeat split.
Qed.

Lemma split_tagAt (a b : jsstring) :
  matchesAtStart hashtagPattern b = true -> tagAt (a ++ b) (length a).
Proof.
  intros Hb. apply hashtagPattern_shape in Hb.
  destruct Hb as [w [c [rest [-> [Hw Hc]]]]].
  exists w, c, rest. repeat split; try assumption.
  rewrite skipn_app, Nat.sub_diag, skipn_all. reflexivity.
Qed.

(** A match inside a part of a string is a match in the string. *)
Lemma tagAt_infix (x t y : jsstring) (j : nat) :
  tagAt t j ->
  exists a b, x ++ t ++ y = a ++ b
              /\ matchesAtStart hashtagPattern b = true
              /\ (length a + 3 <= length x + length t)%nat.
Proof.
  intros [w [c [rest [E [Hw Hc]]]]].
  exists (x ++ firstn j t), (w :: 35 :: c :: rest ++ y). repeat split.
  - rewrite <- (firstn_skipn j t) at 1. rewrite E.
    now rewrite <- !app_assoc.
  - apply hashtagPattern_shape. exists w, c, (rest ++ y). now repeat split.
  - rewrite length_app.
    assert (Hlen : length t = (length (firstn j t) + length (skipn j t))%nat)
      by (now rewrite <- length_app, firstn_skipn).
    rewrite E in Hlen. simpl in Hlen. lia.
Qed.

Lemma cleanDescription_found (text : jsstring) (i : nat) :
  tagAt text i -> (forall j, (j < i)%nat -> ~ tagAt text j) ->
  cleanDescription text = trim (firstn i text).
Proof.
  intros Hi Hleast.
  destruct (tagAt_split Hi) as [a [b [E [Hlen Hb]]]].
  assert (Hs : search hashtagPattern text = Z.of_nat i).
  { rewrite E, <- Hlen. apply search_first; [exact Hb|].
    intros a' b' E' Hlt. destruct (matchesAtStart hashtagPattern b') eqn:Hb'; [|reflexivity].
    exfalso. apply (Hleast (length a')); [lia|].
    rewrite E, E'. now apply split_tagAt. }
  unfold cleanDescription. destruct text as [|c text].
  - destruct a; [|discriminate]. destruct b; [|discriminate].
    apply hashtagPattern_shape in Hb. destruct Hb as [? [? [? [Hb _]]]]. discriminate.
  - cbn [isEmpty]. rewrite Hs.
    replace (Z.of_nat i >? -1)%Z with true by (symmetry; apply Z.gtb_lt; lia).
    rewrite slice_prefix; [reflexivity|].
    rewrite E, length_app. lia.
Qed.

Lemma cleanDescription_not_found (text : jsstring) :
  (forall j, ~ tagAt text j) -> cleanDescription text = trim text.
Proof.
  intros Hnone. unfold cleanDescription. destruct text as [|c text]; [reflexivity|].
  cbn [isEmpty].
  assert (Hs : search hashtagPattern (c :: text) = (-1)%Z).
  { apply search_none. intros a b E.
    destruct (matchesAtStart hashtagPattern b) eqn:Hb; [|reflexivity].
    exfalso. apply (Hnone (length a)). rewrite E. now apply split_tagAt. }
  rewrite Hs. reflexivity.
Qed.

(** The text [cleanDescription] returns holds no match of the pattern. *)
Lemma cleanDescription_no_tag (text : jsstring) (j : nat) :
  ~ tagAt (cleanDescription text) j.
Proof.
  intros Htag. unfold cleanDescription in Htag.
  destruct text as [|c text]; cbn [isEmpty] in Htag.
  - destruct Htag as [? [? [? [E _]]]]. rewrite skipn_nil in E. discriminate.
  - unfold search in Htag.
    destruct (searchFrom hashtagPattern (c :: text) 0) as [k|] eqn:Hs.
    + replace (Z.of_nat k >? -1)%Z with true in Htag by (symmetry; apply Z.gtb_lt; lia).
      apply searchFrom_Some in Hs.
      destruct Hs as [a [b [E [Hk [Hb Hleast]]]]]. simpl in Hk. subst k.
      rewrite slice_prefix in Htag by (rewrite E, length_app; lia).
      rewrite E, firstn_app, Nat.sub_diag, firstn_all, firstn_O, app_nil_r in Htag.
      destruct (trim_infix a) as [x [y Ha]].
      destruct (tagAt_infix x (y ++ b) Htag) as [a' [b' [E' [Hb' Hlen]]]].
      assert (Hlt : (length a' < length a)%nat).
      { pose proof (f_equal (@length _) Ha) as HL.
        rewrite !length_app in HL. lia. }
      rewrite (Hleast a' b') in Hb'; [discriminate | | exact Hlt].
      rewrite <- E', E. rewrite Ha at 1. now rewrite <- !app_assoc.
    + replace (-1 >? -1)%Z with false in Htag by reflexivity.
      destruct (trim_infix (c :: text)) as [x [y Ht]].
      destruct (tagAt_infix x y Htag) as [a' [b' [E' [Hb' _]]]].
      rewrite searchFrom_None in Hs. rewrite (Hs a' b') in Hb'; [discriminate|].
      now rewrite <- E'.
Qed.

Lemma search_cleanDescription (text : jsstring) :
  search hashtagPattern (cleanDescription text) = (-1)%Z.
Proof.
  apply search_none. intros a b E.
  destruct (matchesAtStart hashtagPattern b) eqn:Hb; [|reflexivity].
  exfalso. apply (@cleanDescription_no_tag text (length a)).
  rewrite E. now apply split_tagAt.
Qed.

(** C6. [cleanDescription] maps the empty text, and an absent
    description (which the loader passes as the empty text), to the empty
    string.  For any other text it looks for the first position at which a
    white-space character is followed by [#] and a word character: when
    there is one, the result is the text before that position, trimmed;
    when there is none, the result is the whole text, trimmed.  The three
    examples of the specification evaluate as written. *)
Theorem C6_cleanDescription :
  cleanDescription [] = []
  /\ cleanDescription (stringOr None []) = []
  /\ (forall text i,
        tagAt text i -> (forall j, (j < i)%nat -> ~ tagAt text j) ->
        cleanDescription text = trim (firstn i text))
  /\ (forall text,
        (forall j, ~ tagAt text j) -> cleanDescription text = trim text)
  /\ cleanDescription (js "Great day! #sun #fun") = js "Great day!"
  /\ cleanDescription (js "No tags here") = js "No tags here".
Proof.
  split; [reflexivity|]. split; [reflexivity|].
  split; [exact cleanDescription_found|].
  split; [exact cleanDescription_not_found|].
  split; reflexivity.
Qed.

Lemma C6_cleanDescription_witness :
  cleanDescription (js "ab #c d") = trim (firstn 2 (js "ab #c d"))
  /\ cleanDescription (js "#ab") = trim (js "#ab").
Proof.
  destruct C6_cleanDescription as [_ [_ [Hfound [Hnone _]]]]. split.
  - apply Hfound.
    + exists 32, 99, (js " d"). repeat split.
    + intros j Hj [w [c [rest [E [Hw Hc]]]]].
      destruct j as [|[|j]]; [| |lia]; compute in E; congruence.
  - apply Hnone. intros j [w [c [rest [E [Hw Hc]]]]].
    destruct j as [|[|[|j]]]; try (compute in E; congruence).
    change (skipn j [] = w :: 35 :: c :: rest) in E.
    rewrite skipn_nil in E. discriminate.
Defined.

(** ** [JSON.parse]: the recursion budget is never used up *)

Lemma skipWS_length (s : jsstring) : (length (skipWS s) <= length s)%nat.
Proof.
  induction s as [|c s IH]; simpl; [lia|].
  destruct (isJSONSpace c); simpl; lia.
Qed.

Lemma skipWS_cons_length (s r : jsstring) (c : codeunit) :
  skipWS s = c :: r -> (length r < length s)%nat.
Proof. intros E. pose proof (skipWS_length s) as Hl. rewrite E in Hl. simpl in Hl. lia. Qed.

Lemma span_app (p : codeunit -> bool) (s a b : jsstring) :
  span p s = (a, b) -> s = a ++ b.
Proof.
  revert a b. induction s as [|c s IH]; simpl; intros a b E.
  - now injection E as <- <-.
  - destruct (p c).
    + destruct (span p s) as [a' b'] eqn:Es. injection E as <- <-.
      simpl. now rewrite (IH a' b' eq_refl).
    + now injection E as <- <-.
Qed.

Lemma span_length (p : codeunit -> bool) (s a b : jsstring) :
  span p s = (a, b) -> (length b <= length s)%nat.
Proof. intros E. apply span_app in E. subst. rewrite length_app. lia. Qed.

Lemma consTo_Some (c : codeunit) (r : option (jsstring * jsstring)) (str rest : jsstring) :
  consTo c r = Some (str, rest) ->
  exists str', str = c :: str' /\ r = Some (str', rest).
Proof.
  destruct r as [[str' rest']|]; simpl; [|discriminate].
  intros E. injection E as <- <-. now exists str'.
Qed.

Lemma stringChars_length (s str rest : jsstring) :
  stringChars s = Some (str, rest) -> (length rest < length s)%nat.
Proof.
  remember (length s) as n eqn:Hn. revert s str rest Hn.
  induction n as [n IH] using lt_wf_ind. intros s str rest Hn E.
  destruct s as [|c r]; [discriminate|]. simpl in Hn. cbn [stringChars] in E.
  destruct (c =? 34).
  { injection E as _ <-. lia. }
  destruct (c =? 92).
  - destruct r as [|e r1]; [discriminate|].
    destruct (e =? 117).
    + destruct r1 as [|h1 [|h2 [|h3 [|h4 r2]]]]; try discriminate.
      destruct (isHexDigit h1 && isHexDigit h2 && isHexDigit h3 && isHexDigit h4);
        [|discriminate].
      apply consTo_Some in E. destruct E as [str' [_ E]].
      apply (IH (length r2)) in E; simpl in *; lia.
    + destruct (escapeChar e); [|discriminate].
      apply consTo_Some in E. destruct E as [str' [_ E]].
      apply (IH (length r1)) in E; simpl in *; lia.
  - destruct (c <? 32); [discriminate|].
    apply consTo_Some in E. destruct E as [str' [_ E]].
    apply (IH (length r)) in E; simpl in *; lia.
Qed.

Lemma jsonNumber_length (s rest : jsstring) (n : JSNumber) :
  jsonNumber s = Some (n, rest) -> (length rest < length s)%nat.
Proof.
  unfold jsonNumber. intros E.
  assert (Hsign : forall s1 : jsstring,
             (length s1 <= length s)%nat ->
             forall ip s2, jsonInt s1 = Some (ip, s2) ->
             forall fp s3, jsonFrac s2 = Some (fp, s3) ->
             forall x s4, jsonExp s3 = Some (x, s4) ->
             (length s4 < length s)%nat).
  { intros s1 H1 ip s2 Hi fp s3 Hf x s4 He.
    assert (H2 : (length s2 < length s1)%nat).
    { unfold jsonInt in Hi. destruct s1 as [|d r]; [discriminate|].
      destruct (d =? 48); [injection Hi as _ <-; simpl; lia|].
      destruct (inRange 49 57 d); [|discriminate].
      destruct (span isDigit r) as [ds r'] eqn:Es. injection Hi as _ <-.
      apply span_length in Es. simpl. lia. }
    assert (H3 : (length s3 <= length s2)%nat).
    { unfold jsonFrac in Hf. destruct s2 as [|c r]; [injection Hf as _ <-; lia|].
      destruct (c =? 46); [|injection Hf as _ <-; lia].
      destruct (span isDigit r) as [ds r'] eqn:Es. apply span_length in Es.
      destruct ds; [discriminate|]. injection Hf as _ <-. simpl. lia. }
    assert (H4 : (length s4 <= length s3)%nat).
    { unfold jsonExp in He. destruct s3 as [|c r]; [injection He as _ <-; lia|].
      destruct ((c =? 101) || (c =? 69)); [|injection He as _ <-; lia].
      destruct (signOf r) as [neg r1] eqn:Esg.
      assert (Hr1 : (length r1 <= length r)%nat).
      { unfold signOf in Esg. destruct r as [|y r0]; [injection Esg as _ <-; lia|].
        destruct (y =? 43); [injection Esg as _ <-; simpl; lia|].
        destruct (y =? 45); injection Esg as _ <-; simpl; lia. }
      destruct (span isDigit r1) as [ds r2] eqn:Es. apply span_length in Es.
      destruct ds; [discriminate|]. injection He as _ <-. simpl. lia. }
    lia. }
  destruct s as [|c r].
  - destruct (jsonInt []) as [[ip s2]|] eqn:Hi; [discriminate Hi | discriminate].
  - destruct (c =? 45).
    + destruct (jsonInt r) as [[ip s2]|] eqn:Hi; [|discriminate].
      destruct (jsonFrac s2) as [[fp s3]|] eqn:Hf; [|discriminate].
      destruct (jsonExp s3) as [[x s4]|] eqn:He; [|discriminate].
      injection E as _ <-. eapply (Hsign r); eauto. simpl; lia.
    + destruct (jsonInt (c :: r)) as [[ip s2]|] eqn:Hi; [|discriminate].
      destruct (jsonFrac s2) as [[fp s3]|] eqn:Hf; [|discriminate].
      destruct (jsonExp s3) as [[x s4]|] eqn:He; [|discriminate].
      injection E as _ <-. eapply (Hsign (c :: r)); eauto.
Qed.

Lemma keyword_length (w : string) (v v' : JSValue) (s rest : jsstring) :
  js w <> [] -> keyword w v s = Parsed v' rest -> (length rest < length s)%nat.
Proof.
  intros Hw. unfold keyword.
  destruct (startsWith (js w) s) eqn:Hs; [|discriminate].
  intros E. injection E as _ <-.
  apply startsWith_app in Hs. destruct Hs as [t ->].
  rewrite skipn_app, Nat.sub_diag, skipn_all. simpl.
  rewrite length_app. destruct (js w); [congruence | simpl; lia].
Qed.

Lemma andThen_shrinks {A B : Type} (p : parsed A) (k : A -> jsstring -> parsed B)
    (s t : jsstring) :
  shrinks p s ->
  (forall a rest, (length rest < length s)%nat -> shrinks (k a rest) t) ->
  shrinks (andThen p k) t.
Proof. destruct p; simpl; auto. Qed.

(** Whatever a parsing function leaves unread is shorter than its input. *)
Lemma parse_shrinks (fuel : nat) :
  (forall s, shrinks (parseValue fuel s) s)
  /\ (forall s, shrinks (parseElements fuel s) s)
  /\ (forall s acc, shrinks (parseMembers fuel s acc) s).
Proof.
  induction fuel as [|f [IHv [IHe IHm]]]; [now repeat split|].
  split; [|split].
  - intros s. cbn [parseValue].
    destruct (skipWS s) as [|c r] eqn:Hs; [exact I|].
    apply skipWS_cons_length in Hs.
    destruct (c =? 91).
    { destruct (skipWS r) as [|c' r'] eqn:Hr; [exact I|].
      apply skipWS_cons_length in Hr.
      destruct (c' =? 93); [simpl; lia|].
      apply andThen_shrinks with (s := r); [apply IHe|]. intros; simpl; lia. }
    destruct (c =? 123).
    { destruct (skipWS r) as [|c' r'] eqn:Hr; [exact I|].
      apply skipWS_cons_length in Hr.
      destruct (c' =? 125); [simpl; lia|].
      apply andThen_shrinks with (s := r); [apply IHm|]. intros; simpl; lia. }
    destruct (c =? 34).
    { destruct (stringChars r) as [[str rest]|] eqn:Hstr; [|exact I].
      apply stringChars_length in Hstr. simpl; lia. }
    assert (Hk : forall w v, js w <> [] -> shrinks (keyword w v (c :: r)) s).
    { intros w v Hw. destruct (keyword w v (c :: r)) as [v' rest| |] eqn:Hkw; try exact I.
      apply keyword_length in Hkw; [simpl in *; lia | exact Hw]. }
    destruct (c =? 116); [apply Hk; discriminate|].
    destruct (c =? 102); [apply Hk; discriminate|].
    destruct (c =? 110); [apply Hk; discriminate|].
    destruct (jsonNumber (c :: r)) as [[n rest]|] eqn:Hn; [|exact I].
    apply jsonNumber_length in Hn. simpl in *; lia.
  - intros s. cbn [parseElements].
    apply andThen_shrinks with (s := s); [apply IHv|].
    intros v rest Hrest.
    destruct (skipWS rest) as [|c r] eqn:Hr; [exact I|].
    apply skipWS_cons_length in Hr.
    destruct (c =? 44).
    { apply andThen_shrinks with (s := r); [apply IHe|]. intros; simpl; lia. }
    destruct (c =? 93); [simpl; lia | exact I].
  - intros s acc. cbn [parseMembers].
    destruct (skipWS s) as [|q r] eqn:Hs; [exact I|].
    apply skipWS_cons_length in Hs.
    destruct (q =? 34); [|exact I].
    destruct (stringChars r) as [[key r1]|] eqn:Hstr; [|exact I].
    apply stringChars_length in Hstr.
    destruct (skipWS r1) as [|colon r2] eqn:Hr1; [exact I|].
    apply skipWS_cons_length in Hr1.
    destruct (colon =? 58); [|exact I].
    apply andThen_shrinks with (s := r2); [apply IHv|].
    intros v rest Hrest.
    destruct (skipWS rest) as [|c r3] eqn:Hr; [exact I|].
    apply skipWS_cons_length in Hr.
    destruct (c =? 44).
    { specialize (IHm r3 (setProp key v acc)).
      destruct (parseMembers f r3 (setProp key v acc)); simpl in *; try exact I. lia. }
    destruct (c =? 125); [simpl; lia | exact I].
Qed.

Lemma andThen_budget {A B : Type} (p : parsed A) (k : A -> jsstring -> parsed B)
    (s : jsstring) :
  p <> Exhausted -> shrinks p s ->
  (forall a rest, (length rest < length s)%nat -> k a rest <> Exhausted) ->
  andThen p k <> Exhausted.
Proof. destruct p; simpl; auto; congruence. Qed.

Lemma parse_budget (fuel : nat) :
  (forall s, (2 * length s < fuel)%nat -> parseValue fuel s <> Exhausted)
  /\ (forall s, (2 * length s + 1 < fuel)%nat -> parseElements fuel s <> Exhausted)
  /\ (forall s acc, (2 * length s + 1 < fuel)%nat ->
                    parseMembers fuel s acc <> Exhausted).
Proof.
  induction fuel as [|f [IHv [IHe IHm]]]; [repeat split; intros; lia|].
  destruct (parse_shrinks f) as [Sv [Se Sm]].
  split; [|split].
  - intros s Hf. cbn [parseValue].
    destruct (skipWS s) as [|c r] eqn:Hs; [discriminate|].
    apply skipWS_cons_length in Hs.
    destruct (c =? 91).
    { destruct (skipWS r) as [|c' r'] eqn:Hr; [discriminate|].
      destruct (c' =? 93); [discriminate|].
      apply andThen_budget with (s := r); [apply IHe; lia | apply Se | discriminate]. }
    destruct (c =? 123).
    { destruct (skipWS r) as [|c' r'] eqn:Hr; [discriminate|].
      destruct (c' =? 125); [discriminate|].
      apply andThen_budget with (s := r); [apply IHm; lia | apply Sm | discriminate]. }
    destruct (c =? 34); [destruct (stringChars r) as [[? ?]|]; discriminate|].
    unfold keyword.
    destruct (c =? 116); [destruct (startsWith _ _); discriminate|].
    destruct (c =? 102); [destruct (startsWith _ _); discriminate|].
    destruct (c =? 110); [destruct (startsWith _ _); discriminate|].
    destruct (jsonNumber (c :: r)) as [[? ?]|]; discriminate.
  - intros s Hf. cbn [parseElements].
    apply andThen_budget with (s := s); [apply IHv; lia | apply Sv |].
    intros v rest Hrest.
    destruct (skipWS rest) as [|c r] eqn:Hr; [discriminate|].
    apply skipWS_cons_length in Hr.
    destruct (c =? 44).
    { apply andThen_budget with (s := r); [apply IHe; lia | apply Se | discriminate]. }
    destruct (c =? 93); discriminate.
  - intros s acc Hf. cbn [parseMembers].
    destruct (skipWS s) as [|q r] eqn:Hs; [discriminate|].
    apply skipWS_cons_length in Hs.
    destruct (q =? 34); [|discriminate].
    destruct (stringChars r) as [[key r1]|] eqn:Hstr; [|discriminate].
    apply stringChars_length in Hstr.
    destruct (skipWS r1) as [|colon r2] eqn:Hr1; [discriminate|].
    apply skipWS_cons_length in Hr1.
    destruct (colon =? 58); [|discriminate].
    apply andThen_budget with (s := r2); [apply IHv; lia | apply Sv |].
    intros v rest Hrest.
    destruct (skipWS rest) as [|c r3] eqn:Hr; [discriminate|].
    apply skipWS_cons_length in Hr.
    destruct (c =? 44); [apply IHm; lia|].
    destruct (c =? 125); discriminate.
Qed.

(** With the budget [JSON_parse] gives, parsing ends in a value or in a
    syntax error. *)
Lemma JSON_parse_budget (text : jsstring) :
  parseValue (2 * length text + 1) text <> Exhausted.
Proof. apply parse_budget. lia. Qed.

(** [JSON.parse] throws exactly when the text is not one JSON value. *)
Lemma JSON_parse_throws (text : jsstring) (e : JSError) :
  JSON_parse text = Throw e ->
  e = SyntaxError
  /\ (parseValue (2 * length text + 1) text = Unexpected
      \/ exists v rest,
           parseValue (2 * length text + 1) text = Parsed v rest
           /\ skipWS rest <> []).
Proof.
  unfold JSON_parse. pose proof (JSON_parse_budget text) as Hb.
  destruct (parseValue (2 * length text + 1) text) as [v rest| |] eqn:E.
  - destruct (skipWS rest) eqn:Hr; simpl; [discriminate|].
    intros Ht. injection Ht as <-. split; [reflexivity|].
    right. exists v, rest. split; [reflexivity | congruence].
  - intros Ht. injection Ht as <-. split; [reflexivity | now left].
  - congruence.
Qed.

(** ** [tryParseJSON] *)

Lemma tryParseJSON_absent : tryParseJSON None = Normal (VArray []).
Proof. reflexivity. Qed.

(** [tryParseJSON] never throws: the exceptions of [JSON.parse] are caught. *)
Lemma tryParseJSON_returns (str : option jsstring) :
  exists v, tryParseJSON str = Normal v.
Proof.
  unfold tryParseJSON. destruct (truthy str); simpl; [|now eexists].
  destruct (JSON_parse _); simpl; now eexists.
Qed.

(** Text that is not JSON after the quotes are replaced gives the empty
    array. *)
Lemma tryParseJSON_malformed (s : jsstring) (e : JSError) :
  JSON_parse (replaceEvery 39 [34] s) = Throw e ->
  tryParseJSON (Some s) = Normal (VArray []).
Proof.
  intros E. unfold tryParseJSON. destruct s as [|c s]; [reflexivity|].
  cbn [truthy negb stringOr]. now rewrite E.
Qed.

(** Text that is an array of strings after the quotes are replaced gives
    that array. *)
Lemma tryParseJSON_parsed (s : jsstring) (v : JSValue) :
  s <> [] ->
  JSON_parse (replaceEvery 39 [34] s) = Normal v ->
  tryParseJSON (Some s) = Normal v.
Proof.
  intros Hs E. unfold tryParseJSON. destruct s as [|c s]; [congruence|].
  cbn [truthy negb stringOr]. now rewrite E.
Qed.

Lemma tryParseJSON_examples :
  tryParseJSON (Some (js "['food','travel']"))
    = Normal (VArray [VString (js "food"); VString (js "travel")])
  /\ tryParseJSON (Some (js "not json")) = Normal (VArray [])
  /\ JSON_parse (replaceEvery 39 [34] (js "not json")) = Throw SyntaxError
  /\ tryParseJSON (Some []) = Normal (VArray []).
Proof. repeat split. Qed.

(** C2. The text of the tag column is a string, and a string that holds a
    JSON value other than an array comes back as that value: a number for
    ["42"], a string for ["'food'"], an object for ["{'a': 1}"], although
    [tryParseJSON] is declared to return [string[]].  No exception is
    raised and nothing is replaced by the empty sequence. *)
Theorem C2_tryParseJSON_non_array :
  tryParseJSON (Some (js "42")) = Normal (VNumber (ofN 42))
  /\ tryParseJSON (Some (js "'food'")) = Normal (VString (js "food"))
  /\ tryParseJSON (Some (js "{'a': 1}"))
     = Normal (VObject [(js "a", VNumber (ofN 1))]).
Proof. repeat split. Qed.

(** ** Tag lists with an apostrophe inside a tag *)

Lemma replaceEvery_app (c : codeunit) (rep a b : jsstring) :
  replaceEvery c rep (a ++ b) = replaceEvery c rep a ++ replaceEvery c rep b.
Proof. apply flat_map_app. Qed.

Lemma isPlain_inv (c : codeunit) :
  isPlain c = true ->
  (c =? 39) = false /\ (c =? 34) = false /\ (c =? 92) = false /\ (c <? 32) = false.
Proof.
  unfold isPlain. rewrite !andb_true_iff, !negb_true_iff.
  intros [[[H1 H2] H3] H4]. repeat split; try assumption.
  apply N.ltb_ge. now apply N.leb_le.
Qed.

Lemma replaceEvery_plain (u : jsstring) :
  forallb isPlain u = true -> replaceEvery 39 [34] u = u.
Proof.
  induction u as [|c u IH]; simpl; [reflexivity|].
  rewrite andb_true_iff. intros [Hc Hu]. apply isPlain_inv in Hc.
  destruct Hc as [-> _]. simpl. now rewrite (IH Hu).
Qed.

Lemma isJSONSpace_not_quote (c : codeunit) :
  isJSONSpace c = true -> (c =? 39) = false.
Proof.
  unfold isJSONSpace. rewrite !orb_true_iff, !N.eqb_eq.
  intros [[[-> | ->] | ->] | ->]; reflexivity.
Qed.

Lemma replaceEvery_spaces (spaces : jsstring) :
  forallb isJSONSpace spaces = true -> replaceEvery 39 [34] spaces = spaces.
Proof.
  induction spaces as [|c u IH]; simpl; [reflexivity|].
  rewrite andb_true_iff. intros [Hc Hu].
  rewrite (isJSONSpace_not_quote _ Hc). simpl. now rewrite (IH Hu).
Qed.

Lemma skipWS_spaces (spaces s : jsstring) :
  forallb isJSONSpace spaces = true -> skipWS (spaces ++ s) = skipWS s.
Proof.
  induction spaces as [|c u IH]; simpl; [reflexivity|].
  rewrite andb_true_iff. intros [-> Hu]. now apply IH.
Qed.

Lemma stringChars_plain (u rest : jsstring) :
  forallb isPlain u = true -> stringChars (u ++ 34 :: rest) = Some (u, rest).
Proof.
  induction u as [|c u IH]; [reflexivity|].
  cbn [forallb]. rewrite andb_true_iff. intros [Hc Hu].
  apply isPlain_inv in Hc. destruct Hc as [_ [H34 [H92 H32]]].
  cbn [app stringChars]. rewrite H34, H92, H32, (IH Hu). reflexivity.
Qed.

Lemma parseValue_spaces (fuel : nat) (spaces s : jsstring) :
  forallb isJSONSpace spaces = true ->
  parseValue fuel (spaces ++ s) = parseValue fuel s.
Proof.
  intros Hsp. destruct fuel as [|f]; [reflexivity|].
  cbn [parseValue]. now rewrite skipWS_spaces.
Qed.

Lemma parseElements_spaces (fuel : nat) (spaces s : jsstring) :
  forallb isJSONSpace spaces = true ->
  parseElements fuel (spaces ++ s) = parseElements fuel s.
Proof.
  intros Hsp. destruct fuel as [|f]; [reflexivity|].
  cbn [parseElements]. now rewrite parseValue_spaces.
Qed.

(** A string literal of plain characters is read as that string. *)
Lemma parseValue_plain_string (fuel : nat) (u rest : jsstring) :
  forallb isPlain u = true ->
  parseValue (S fuel) (34 :: u ++ 34 :: rest) = Parsed (VString u) rest.
Proof.
  intros Hu. cbn [parseValue skipWS].
  change (isJSONSpace 34) with false. cbv iota.
  change (34 =? 91) with false. change (34 =? 123) with false.
  change (34 =? 34) with true. cbv iota.
  now rewrite (stringChars_plain u rest Hu).
Qed.

Lemma continuation_rejected (v tail : jsstring) :
  noDelimiterFollows v = true ->
  match skipWS (replaceEvery 39 [34] v ++ 34 :: tail) with
  | [] => True
  | c :: _ => (c =? 44) = false /\ (c =? 93) = false
  end.
Proof.
  unfold noDelimiterFollows.
  induction v as [|c v IH]; [intros _; now split|].
  cbn [skipWS replaceEvery flat_map].
  destruct (isJSONSpace c) eqn:Hws.
  - intros Hv. rewrite (isJSONSpace_not_quote _ Hws). cbn [app skipWS].
    rewrite Hws. now apply IH.
  - rewrite negb_true_iff, orb_false_iff. intros [H44 H93].
    destruct (c =? 39); cbn [app skipWS].
    + now split.
    + rewrite Hws. now split.
Qed.

Lemma andThen_notParsed {A B : Type} (p : parsed A) (k : A -> jsstring -> parsed B) :
  notParsed p -> notParsed (andThen p k).
Proof. destruct p; simpl; intros Hp; [contradiction | exact I | exact I]. Qed.

Lemma parseElements_step (fuel : nat) (s : jsstring) :
  parseElements (S fuel) s
  = andThen (parseValue fuel s) (fun v rest =>
      match skipWS rest with
      | [] => Unexpected
      | c :: r =>
          if c =? 44 then
            andThen (parseElements fuel r) (fun vs rest' => Parsed (v :: vs) rest')
          else if c =? 93 then Parsed [v] r
          else Unexpected
      end).
Proof. reflexivity. Qed.

Lemma elements_rejected (spaces u v tail : jsstring) (pre : list jsstring) (fuel : nat) :
  forallb isJSONSpace spaces = true ->
  forallb (forallb isPlain) pre = true ->
  forallb isPlain u = true ->
  noDelimiterFollows v = true ->
  notParsed (parseElements fuel
               (leading spaces pre
                  (34 :: u ++ 34 :: replaceEvery 39 [34] v ++ 34 :: tail))).
Proof.
  intros Hsp Hpre Hu Hv. revert fuel Hpre.
  induction pre as [|t pre IH]; intros fuel Hpre.
  - destruct fuel as [|f]; [exact I|]. rewrite parseElements_step.
    destruct f as [|f]; [exact I|].
    cbn [leading]. rewrite parseValue_plain_string by exact Hu.
    cbn [andThen]. pose proof (continuation_rejected v tail Hv) as Hc.
    destruct (skipWS (replaceEvery 39 [34] v ++ 34 :: tail)) as [|c r]; [exact I|].
    destruct Hc as [-> ->]. exact I.
  - cbn [forallb] in Hpre. apply andb_true_iff in Hpre. destruct Hpre as [Ht Hpre].
    destruct fuel as [|f]; [exact I|]. rewrite parseElements_step.
    destruct f as [|f]; [exact I|].
    cbn [leading]. rewrite parseValue_plain_string by exact Ht.
    cbn [andThen skipWS]. change (isJSONSpace 44) with false. cbv iota.
    change (44 =? 44) with true. cbv iota.
    apply andThen_notParsed. rewrite parseElements_spaces by exact Hsp.
    now apply IH.
Qed.

Lemma joinWith_cons (sep x y : jsstring) (rest : list jsstring) :
  joinWith sep (x :: y :: rest) = x ++ sep ++ joinWith sep (y :: rest).
Proof. reflexivity. Qed.

Lemma replaceEvery_quoted (t : jsstring) :
  replaceEvery 39 [34] (quoted t) = 34 :: replaceEvery 39 [34] t ++ [34].
Proof.
  unfold quoted. change (39 :: t ++ [39]) with ([39] ++ t ++ [39]).
  now rewrite !replaceEvery_app.
Qed.

Lemma encoded_shape (spaces u v : jsstring) (pre post : list jsstring) :
  forallb isJSONSpace spaces = true ->
  forallb (forallb isPlain) pre = true ->
  forallb isPlain u = true ->
  exists tail,
    replaceEvery 39 [34]
      (joinWith (44 :: spaces) (map quoted (pre ++ (u ++ 39 :: v) :: post)) ++ [93])
    = leading spaces pre (34 :: u ++ 34 :: replaceEvery 39 [34] v ++ 34 :: tail).
Proof.
  intros Hsp Hpre Hu. induction pre as [|t pre IH].
  - cbn [app map leading].
    assert (Hj : exists t0,
               joinWith (44 :: spaces) (quoted (u ++ 39 :: v) :: map quoted post)
               = quoted (u ++ 39 :: v) ++ t0).
    { destruct post as [|p post].
      - exists []. simpl. now rewrite app_nil_r.
      - eexists. cbn [map]. rewrite joinWith_cons. reflexivity. }
    destruct Hj as [t0 ->].
    exists (replaceEvery 39 [34] (t0 ++ [93])).
    rewrite <- app_assoc, replaceEvery_app, replaceEvery_quoted, replaceEvery_app.
    rewrite (replaceEvery_plain _ Hu).
    change (replaceEvery 39 [34] (39 :: v)) with (34 :: replaceEvery 39 [34] v).
    cbn [app]. now rewrite <- !app_assoc.
  - cbn [forallb] in Hpre. apply andb_true_iff in Hpre. destruct Hpre as [Ht Hpre].
    destruct (IH Hpre) as [tail Htail]. exists tail.
    cbn [app map leading].
    destruct (map quoted (pre ++ (u ++ 39 :: v) :: post)) as [|y ys] eqn:Hm.
    { destruct pre; discriminate. }
    rewrite joinWith_cons, <- !app_assoc, replaceEvery_app, replaceEvery_quoted.
    rewrite (replaceEvery_plain _ Ht), replaceEvery_app.
    change (replaceEvery 39 [34] (44 :: spaces))
      with (44 :: replaceEvery 39 [34] spaces).
    rewrite (replaceEvery_spaces _ Hsp), Htail.
    cbn [app]. now rewrite <- !app_assoc.
Qed.

(** C10, as the code has it.  Take a list of tags written with single
    quotes, a comma and optional JSON white space between the tags, in
    which some tag contains an apostrophe; let [u] be the text of that tag
    before its first apostrophe and [v] the text after it.  When the tags
    before it and [u] consist of plain characters (no quote of either
    kind, no backslash, no control character) and [v] does not continue,
    after optional JSON white space, with a comma or a closing bracket,
    the text with its quotes replaced is not JSON, [JSON.parse] throws a
    SyntaxError, and [tryParseJSON] returns the empty sequence: the tags
    before and after the apostrophe are lost too. *)
Theorem C10_apostrophe_discards_list
    (spaces u v : jsstring) (pre post : list jsstring) :
  forallb isJSONSpace spaces = true ->
  forallb (forallb isPlain) pre = true ->
  forallb isPlain u = true ->
  noDelimiterFollows v = true ->
  JSON_parse (replaceEvery 39 [34]
                (encodeTags (44 :: spaces) (pre ++ (u ++ 39 :: v) :: post)))
    = Throw SyntaxError
  /\ tryParseJSON (Some (encodeTags (44 :: spaces) (pre ++ (u ++ 39 :: v) :: post)))
     = Normal (VArray []).
Proof.
  intros Hsp Hpre Hu Hv.
  assert (Hthrow :
            JSON_parse (replaceEvery 39 [34]
                          (encodeTags (44 :: spaces) (pre ++ (u ++ 39 :: v) :: post)))
            = Throw SyntaxError).
  { unfold encodeTags.
    change (replaceEvery 39 [34] (91 :: ?x)) with (91 :: replaceEvery 39 [34] x).
    destruct (@encoded_shape spaces u v pre post Hsp Hpre Hu) as [tail ->].
    pose proof (fun f => @elements_rejected spaces u v tail pre f Hsp Hpre Hu Hv) as Hrej.
    unfold JSON_parse.
    set (body := leading spaces pre _) in *.
    rewrite Nat.add_1_r. cbn [parseValue skipWS].
    change (isJSONSpace 91) with false. cbv iota.
    change (91 =? 91) with true. cbv iota.
    assert (Hhead : exists r, skipWS body = 34 :: r).
    { subst body. destruct pre; cbn [leading skipWS];
        change (isJSONSpace 34) with false; cbv iota; now eexists. }
    destruct Hhead as [r ->].
    change (34 =? 93) with false. cbv iota.
    match goal with
    | |- context [parseElements ?f body] =>
        specialize (Hrej f); destruct (parseElements f body)
    end; simpl in *; [contradiction | reflexivity | reflexivity]. }
  split; [exact Hthrow|].
  eapply tryParseJSON_malformed; exact Hthrow.
Qed.

Lemma C10_apostrophe_discards_list_witness :
  JSON_parse (replaceEvery 39 [34] (js "['home', 'don't stop', 'go']"))
    = Throw SyntaxError
  /\ tryParseJSON (Some (js "['home', 'don't stop', 'go']")) = Normal (VArray []).
Proof.
  exact (@C10_apostrophe_discards_list (js " ") (js "don") (js "t stop")
           [js "home"] [js "go"] eq_refl eq_refl eq_refl eq_refl).
Defined.

(** C10, as stated, fails: the tag text [a','b] contains single quotes,
    the tag column for the list of that one tag reads [['a','b']], and
    [tryParseJSON] returns the two strings [a] and [b], not the empty
    sequence. *)
Lemma C10_counterexample :
  In 39 (js "a','b")
  /\ encodeTags (js ",") [js "a','b"] = js "['a','b']"
  /\ tryParseJSON (Some (encodeTags (js ",") [js "a','b"]))
     = Normal (VArray [VString (js "a"); VString (js "b")]).
Proof.
  split; [|split]; [|reflexivity|reflexivity].
  right. left. reflexivity.
Qed.

(** ** Decimal literals *)

Lemma digit_range (c : codeunit) : isDigit c = true -> 48 <= c <= 57.
Proof.
  unfold isDigit, inRange. rewrite andb_true_iff, !N.leb_le. tauto.
Qed.

Lemma digit_not_space (c : codeunit) : isDigit c = true -> isWhiteSpace c = false.
Proof.
  intros Hc. apply digit_range in Hc. unfold isWhiteSpace, inRange. by_cases.
Qed.

Lemma trimStart_id (s : jsstring) :
  Forall (fun c => isWhiteSpace c = false) s -> trimStart s = s.
Proof. intros Hs. destruct Hs as [|c s Hc _]; [reflexivity|]. simpl. now rewrite Hc. Qed.

Lemma trim_id (s : jsstring) :
  Forall (fun c => isWhiteSpace c = false) s -> trim s = s.
Proof.
  intros Hs. unfold trim, trimEnd. rewrite (trimStart_id Hs).
  rewrite trimStart_id; [apply rev_involutive|].
  apply Forall_forall. intros c Hc. apply in_rev in Hc.
  revert c Hc. now apply Forall_forall.
Qed.

Lemma span_all (p : codeunit -> bool) (a rest : jsstring) :
  forallb p a = true ->
  match rest with [] => True | c :: _ => p c = false end ->
  span p (a ++ rest) = (a, rest).
Proof.
  intros Ha Hrest. induction a as [|c a IH]; simpl.
  - destruct rest as [|c rest]; [reflexivity|]. simpl in *. now rewrite Hrest.
  - simpl in Ha. apply andb_true_iff in Ha. destruct Ha as [-> Ha].
    now rewrite (IH Ha).
Qed.

Lemma unsignedDecimal_digits (neg : bool) (d : codeunit) (ip fp : jsstring) :
  forallb isDigit (d :: ip) = true -> forallb isDigit fp = true ->
  unsignedDecimal neg ((d :: ip) ++ match fp with [] => [] | _ :: _ => 46 :: fp end)
  = Dec neg (digitsValue 10 ((d :: ip) ++ fp)) (- Z.of_nat (length fp)).
Proof.
  intros Hip Hfp. unfold unsignedDecimal.
  assert (Hd : isDigit d = true) by (simpl in Hip; now apply andb_true_iff in Hip).
  replace (startsWith (js "Infinity") ((d :: ip) ++ _)) with false.
  2:{ apply digit_range in Hd.
      change (js "Infinity") with (73 :: js "nfinity").
      change ((d :: ip) ++ ?x) with (d :: ip ++ x). cbn [startsWith].
      destruct (N.eqb_spec 73 d); [lia | reflexivity]. }
  cbn [andb].
  destruct fp as [|f fp].
  - rewrite app_nil_r. rewrite <- (app_nil_r (d :: ip)) at 1.
    rewrite span_all; [|exact Hip | exact I]. reflexivity.
  - rewrite span_all; [|exact Hip | reflexivity].
    rewrite <- (app_nil_r (f :: fp)) at 1.
    rewrite span_all; [|exact Hfp | exact I]. reflexivity.
Qed.

(** [Number] of a decimal literal is the quantity the literal writes,
    with its sign and its fraction. *)
Lemma Number_decimalLiteral (neg : bool) (ip fp : jsstring) :
  ip <> [] -> forallb isDigit ip = true -> forallb isDigit fp = true ->
  Number (Some (decimalLiteral neg ip fp))
  = Dec neg (digitsValue 10 (ip ++ fp)) (- Z.of_nat (length fp)).
Proof.
  intros Hne Hip Hfp. destruct ip as [|d ip]; [congruence|].
  assert (Hd : isDigit d = true) by (simpl in Hip; now apply andb_true_iff in Hip).
  pose proof (digit_range _ Hd) as Hdr.
  rewrite <- (unsignedDecimal_digits neg d ip fp Hip Hfp).
  unfold decimalLiteral.
  match goal with
  | |- context [(d :: ip) ++ ?f] => remember f as frac eqn:Efrac
  end.
  assert (Htail : Forall (fun c => isDigit c = true \/ c = 46) (ip ++ frac)).
  { apply Forall_app. split.
    - simpl in Hip. apply andb_true_iff in Hip. destruct Hip as [_ Hip].
      apply Forall_forall. intros c Hc. left.
      exact (proj1 (forallb_forall _ _) Hip c Hc).
    - subst frac. destruct fp as [|f fp]; constructor; [now right|].
      apply Forall_forall. intros c Hc. left.
      exact (proj1 (forallb_forall _ _) Hfp c Hc). }
  assert (Hns : Forall (fun c => isWhiteSpace c = false)
                  ((if neg then [45] else []) ++ (d :: ip) ++ frac)).
  { apply Forall_app. split.
    - destruct neg; repeat constructor.
    - change ((d :: ip) ++ frac) with (d :: ip ++ frac).
      constructor; [now apply digit_not_space|].
      eapply Forall_impl; [|exact Htail].
      intros c [Hc | ->]; [now apply digit_not_space | reflexivity]. }
  unfold Number, StringToNumber. rewrite (trim_id Hns).
  change ((d :: ip) ++ frac) with (d :: ip ++ frac).
  clear Efrac Hns. destruct neg; cbn [app].
  - destruct (ip ++ frac) as [|x ds]; reflexivity.
  - destruct (ip ++ frac) as [|x ds] eqn:Er.
    + unfold signOf. by_cases.
    + assert (Hx : isDigit x = true \/ x = 46) by (now inversion Htail).
      replace ((x =? 120) || (x =? 88)) with false.
      2:{ destruct Hx as [Hx | ->]; [apply digit_range in Hx; by_cases | reflexivity]. }
      replace ((x =? 111) || (x =? 79)) with false.
      2:{ destruct Hx as [Hx | ->]; [apply digit_range in Hx; by_cases | reflexivity]. }
      replace ((x =? 98) || (x =? 66)) with false.
      2:{ destruct Hx as [Hx | ->]; [apply digit_range in Hx; by_cases | reflexivity]. }
      rewrite !andb_false_r. unfold signOf. by_cases.
Qed.

(** ** The loader *)

Lemma mapM_returns {A B : Type} (f : A -> Completion B) (xs : list A) :
  (forall x, exists y, f x = Normal y) ->
  exists ys, mapM f xs = Normal ys /\ Forall2 (fun x y => f x = Normal y) xs ys.
Proof.
  intros Hf. induction xs as [|x xs [ys [E HF]]].
  - exists []. split; [reflexivity | constructor].
  - destruct (Hf x) as [y Hy]. exists (y :: ys). split.
    + simpl. rewrite Hy. simpl. rewrite E. reflexivity.
    + now constructor.
Qed.

Section Loader.
Context {H : Host}.

(** Normalising a row never throws, and this is the Post it gives. *)
Lemma processPost_returns (post : Raw.t) :
  exists tags,
    tryParseJSON (Raw.hashtags post) = Normal tags
    /\ processPost post
       = Normal {|
           date_posted :=
             toLocaleDateString (Date_parse (stringOr (Raw.date_posted post) []));
           description := Raw.description post;
           hashtags := orElse tags (VArray []);
           clean_description := cleanDescription (stringOr (Raw.description post) []);
           url := Raw.url post;
           photos := Raw.photos post;
           likes := coerceCount (Raw.likes post);
           num_comments := coerceCount (Raw.num_comments post)
         |}.
Proof.
  destruct (tryParseJSON_returns (Raw.hashtags post)) as [tags Ht].
  exists tags. split; [exact Ht|].
  unfold processPost. rewrite Ht. reflexivity.
Qed.

Lemma numberOr_zero_not_NaN (n : JSNumber) : numberOr n zero <> NaN.
Proof. unfold numberOr. destruct n; simpl; try discriminate.
       destruct (negb (roundsToZero m e)); discriminate. Qed.

Lemma orElse_truthy (v : JSValue) : toBoolean (orElse v (VArray [])) = true.
Proof. unfold orElse. destruct (toBoolean v) eqn:E; [exact E | reflexivity]. Qed.

(** What holds of every Post the loader builds: the counts are numbers
    (not NaN), [hashtags] is never a falsy value, and the clean
    description holds no match of the extraction pattern. *)
Lemma loaded_post_invariants (row : Raw.t) (post : InstagramPost) :
  processPost row = Normal post ->
  likes post <> NaN /\ num_comments post <> NaN
  /\ toBoolean (hashtags post) = true
  /\ search hashtagPattern (clean_description post) = (-1)%Z
  /\ forall j, ~ tagAt (clean_description post) j.
Proof.
  destruct (processPost_returns row) as [tags [_ ->]].
  intros E. injection E as <-. cbn.
  repeat split.
  - apply numberOr_zero_not_NaN.
  - apply numberOr_zero_not_NaN.
  - apply orElse_truthy.
  - apply search_cleanDescription.
  - intros j. apply cleanDescription_no_tag.
Qed.

Lemma processData_returns (rows : list Raw.t) :
  exists loaded,
    processData rows = Normal loaded
    /\ Forall2 (fun row post => processPost row = Normal post)
         (filter (fun row => truthy (Raw.date_posted row)) rows) loaded.
Proof.
  unfold processData. apply mapM_returns.
  intros row. destruct (processPost_returns row) as [tags [_ ->]]. now eexists.
Qed.

(** C1, as the code has it.  A row becomes a Post exactly when its date
    field is present and not empty; whether that text is a date is not
    checked.  The loader never fails, its output has as many Posts as
    there are rows with a non-empty date field, and the Posts are the
    normalised rows in source order; the date shown is whatever the
    runtime prints for the text, which for a text that is not a date is
    [Invalid Date]. *)
Theorem C1_rows_with_a_date_become_posts (rows : list Raw.t) :
  exists loaded,
    processData rows = Normal loaded
    /\ length loaded
       = length (filter (fun row => truthy (Raw.date_posted row)) rows)
    /\ Forall2
         (fun row post =>
            processPost row = Normal post
            /\ date_posted post
               = toLocaleDateString (Date_parse (stringOr (Raw.date_posted row) []))
            /\ description post = Raw.description row
            /\ url post = Raw.url row)
         (filter (fun row => truthy (Raw.date_posted row)) rows) loaded.
Proof.
  destruct (processData_returns rows) as [loaded [E HF]].
  exists loaded. split; [exact E|]. split.
  - symmetry. exact (Forall2_length HF).
  - clear E. induction HF as [|row post kept' loaded' Hp _ IH]; constructor; [|exact IH].
    split; [exact Hp|].
    destruct (processPost_returns row) as [tags [_ Hq]].
    rewrite Hq in Hp. injection Hp as <-. now repeat split.
Qed.

(** C7. The loader fills [likes] and [num_comments] with
    [Number(raw) || 0].  That expression is 0 when the field is absent,
    when it is the empty string, and whenever [Number] gives NaN; it is
    42 for ["42"]; and every Number that is not a zero comes out as it
    is.  In particular a decimal literal with a minus sign or with a
    fraction comes out as the quantity it writes, sign and fraction kept,
    unless that quantity is so small that it is a zero as a Number. *)
Theorem C7_coerceCount :
  (forall row post,
      processPost row = Normal post ->
      likes post = coerceCount (Raw.likes row)
      /\ num_comments post = coerceCount (Raw.num_comments row))
  /\ coerceCount None = zero
  /\ coerceCount (Some []) = zero
  /\ (forall s, Number (Some s) = NaN -> coerceCount (Some s) = zero)
  /\ coerceCount (Some (js "abc")) = zero
  /\ coerceCount (Some (js "42")) = ofN 42
  /\ (forall raw neg m e,
        Number raw = Dec neg m e -> roundsToZero m e = false ->
        coerceCount raw = Dec neg m e)
  /\ (forall neg ip fp,
        ip <> [] -> forallb isDigit ip = true -> forallb isDigit fp = true ->
        roundsToZero (digitsValue 10 (ip ++ fp)) (- Z.of_nat (length fp)) = false ->
        coerceCount (Some (decimalLiteral neg ip fp))
        = Dec neg (digitsValue 10 (ip ++ fp)) (- Z.of_nat (length fp)))
  /\ coerceCount (Some (js "-7")) = Dec true 7 0
  /\ coerceCount (Some (js "2.5")) = Dec false 25 (-1)
  /\ coerceCount (Some (js "-0.125")) = Dec true 125 (-3).
Proof.
  assert (Hpass : forall raw neg m e,
             Number raw = Dec neg m e -> roundsToZero m e = false ->
             coerceCount raw = Dec neg m e).
  { intros raw neg m e Hn Hz. unfold coerceCount, numberOr.
    rewrite Hn. simpl. now rewrite Hz. }
  split.
  { intros row post Hp. destruct (processPost_returns row) as [tags [_ Hq]].
    rewrite Hq in Hp. injection Hp as <-. now split. }
  split; [reflexivity|]. split; [reflexivity|].
  split.
  { intros s Hs. unfold coerceCount. now rewrite Hs. }
  split; [reflexivity|]. split; [reflexivity|].
  split; [exact Hpass|].
  split.
  { intros neg ip fp Hne Hip Hfp Hz. apply Hpass; [|exact Hz].
    now apply Number_decimalLiteral. }
  repeat split.
Qed.

(** The [error] callback: when it is the one invoked, the dataset and
    the displayed results are left as they were, as are the query and the
    mode; one entry is written to the console when a file had been
    chosen. *)
Lemma error_callback_keeps_state (file : option jsstring) (error : jsstring)
    (st : State) :
  exists st',
    handleFileUpload file (Error error) st = Normal st'
    /\ posts st' = posts st
    /\ searchResults st' = searchResults st
    /\ searchTerm st' = searchTerm st
    /\ isHashtagSearch st' = isHashtagSearch st
    /\ console st'
       = match file with
         | Some _ => console st ++ [(js "Error parsing CSV:", error)]
         | None => console st
         end.
Proof.
  destruct file as [name|]; simpl; eexists; repeat split.
Qed.

(** A load that completes replaces the dataset and the results. *)
Lemma successful_load_replaces (name : jsstring) (results : ParseResult)
    (st : State) :
  exists loaded,
    processData (data results) = Normal loaded
    /\ handleFileUpload (Some name) (Complete results) st
       = Normal (setSearchResults loaded (setPosts loaded st)).
Proof.
  destruct (processData_returns (data results)) as [loaded [E _]].
  exists loaded. split; [exact E|]. simpl. now rewrite E.
Qed.

End Loader.

(** ** The reference host *)

Lemma RefHost_lower_ascii (c : codeunit) :
  c < 128 -> RefHost.lowerLatin1 c = asciiLower c.
Proof.
  intros Hc. unfold RefHost.lowerLatin1, asciiLower.
  replace (inRange 192 222 c) with false; [now rewrite andb_false_l, orb_false_r|].
  symmetry. unfold inRange. apply andb_false_iff. left. apply N.leb_gt. lia.
Qed.

Lemma RefHost_spec : HostSpec RefHost.host.
Proof.
  constructor. intros s Hs. simpl.
  induction Hs as [|c s Hc _ IH]; [reflexivity|].
  simpl. now rewrite RefHost_lower_ascii, IH.
Qed.

Lemma RefHost_dates :
  toLocaleDateString (H := RefHost.host)
    (RefHost.parseISO (js "2024-01-01T10:00:00Z")) = js "01.01.2024, 10:00"
  /\ toLocaleDateString (H := RefHost.host)
       (RefHost.parseISO (js "2024-02-29")) = js "29.02.2024, 00:00"
  /\ RefHost.parseISO (js "2023-02-29") = None
  /\ RefHost.parseISO (js "gestern") = None.
Proof. repeat split. Qed.

(** The end-to-end example of the specification: of two rows the one
    with an empty date is dropped, and the other becomes a Post with 5
    likes and the tags [cat] and [dog]. *)
Lemma load_two_rows :
  exists post,
    processData (H := RefHost.host)
      [ {| Raw.date_posted := Some (js "2024-01-01T10:00:00Z");
           Raw.description := None;
           Raw.hashtags := Some (js "['cat','dog']");
           Raw.clean_description := None; Raw.url := None; Raw.photos := None;
           Raw.likes := Some (js "5"); Raw.num_comments := None |};
        rowOf (Some []) None ]
    = Normal [post]
    /\ likes post = ofN 5
    /\ hashtags post = VArray [VString (js "cat"); VString (js "dog")]
    /\ date_posted post = js "01.01.2024, 10:00".
Proof. eexists. repeat split. Qed.

(** Of three rows, one with an empty date, two become Posts. *)
Lemma load_three_rows :
  exists first second,
    processData (H := RefHost.host)
      [rowOf (Some (js "2024-05-01")) None; rowOf (Some []) None;
       rowOf (Some (js "2024-05-03T08:30")) None]
    = Normal [first; second]
    /\ date_posted first = js "01.05.2024, 00:00"
    /\ date_posted second = js "03.05.2024, 08:30".
Proof. eexists _, _. repeat split. Qed.

(** C1, as stated, fails: the text [gestern] is not a date, so no row of
    the input has a non-empty and parseable date, yet the loader returns
    one Post, whose date reads [Invalid Date]. *)
Lemma C1_counterexample :
  length (filter (fun row => AsStated.parseableDate (H := RefHost.host) (Raw.date_posted row))
            [rowOf (Some (js "gestern")) None]) = 0%nat
  /\ exists post,
       processData (H := RefHost.host) [rowOf (Some (js "gestern")) None]
       = Normal [post]
       /\ date_posted post = js "Invalid Date".
Proof. split; [reflexivity|]. eexists. split; reflexivity. Qed.

Lemma C7_coerceCount_witness :
  (let post :=
     {| date_posted := js "01.01.2024, 00:00"; description := None;
        hashtags := VArray []; clean_description := [];
        url := None; photos := None;
        likes := Dec true 7 0; num_comments := zero |} in
   likes post = coerceCount (Some (js "-7"))
   /\ num_comments post = coerceCount None)
  /\ coerceCount (Some (js "12px")) = zero
  /\ coerceCount (Some (js " -3.5 ")) = Dec true 35 (-1)
  /\ coerceCount (Some (js "-12.75")) = Dec true 1275 (-2).
Proof.
  destruct (@C7_coerceCount RefHost.host)
    as [Hfill [_ [_ [Hnan [_ [_ [Hpass [Hlit _]]]]]]]].
  split; [|split; [|split]].
  - apply (Hfill {| Raw.date_posted := Some (js "2024-01-01");
                    Raw.description := None; Raw.hashtags := None;
                    Raw.clean_description := None; Raw.url := None;
                    Raw.photos := None; Raw.likes := Some (js "-7");
                    Raw.num_comments := None |}).
    reflexivity.
  - apply Hnan. reflexivity.
  - apply (Hpass (Some (js " -3.5 ")) true 35 (-1)%Z); reflexivity.
  - apply (Hlit true (js "12") (js "75")); [discriminate | reflexivity ..].
Defined.

(** C8. A row whose tag column holds the text [42] is loaded as a Post
    whose [hashtags] is the number 42, not a sequence; a search by tag
    over that dataset then throws a TypeError.  The value comes from
    [tryParseJSON], which returns whatever JSON value the text holds. *)
Theorem C8_hashtags_not_a_sequence :
  exists post,
    processData (H := RefHost.host) [rowOf (Some (js "2024-01-01")) (Some (js "42"))]
    = Normal [post]
    /\ hashtags post = VNumber (ofN 42)
    /\ tagsOf post = None
    /\ searchIn (H := RefHost.host) [post] (js "cat") true = Throw TypeError.
Proof. eexists. repeat split. Qed.

(** C9. A parse that reports errors does not stop the load.  The CSV
    parser hands malformed text to the [complete] callback, with the
    rows it could read in [results.data] and the errors it met in
    [results.errors]; the callback never reads [results.errors].  So
    whatever errors are reported, the rows delivered replace the dataset
    and the displayed results, and nothing is written to the console.
    For a page that shows one Post, a file whose second line has an
    unterminated quoted field comes back as one row together with one
    error: the Post shown before is gone and the row of the broken file
    is shown instead.  Only the [error] callback leaves the state as it
    was ([error_callback_keeps_state]). *)
Theorem C9_reported_errors_do_not_stop_the_load :
  (forall (H : Host) (name : jsstring) (rows : list Raw.t)
          (reported : list jsstring) (st : State),
      exists loaded st',
        processData rows = Normal loaded
        /\ handleFileUpload (Some name)
             (Complete {| data := rows; errors := reported |}) st
           = Normal st'
        /\ posts st' = loaded
        /\ searchResults st' = loaded
        /\ console st' = console st)
  /\ exists st',
       handleFileUpload (H := RefHost.host) (Some (js "posts.csv"))
         (Complete
            {| data := [ {| Raw.date_posted := Some (js "2024-01-02");
                            Raw.description := Some (js "unclosed");
                            Raw.hashtags := None;
                            Raw.clean_description := None;
                            Raw.url := None; Raw.photos := None;
                            Raw.likes := None; Raw.num_comments := None |} ];
               errors := [js "Quoted field unterminated"] |})
         {| posts := [postOf (js "shown before") (VArray [])];
            searchTerm := []; isHashtagSearch := false;
            searchResults := [postOf (js "shown before") (VArray [])];
            console := [] |}
       = Normal st'
       /\ posts st'
          = [ {| date_posted := js "02.01.2024, 00:00";
                 description := Some (js "unclosed");
                 hashtags := VArray [];
                 clean_description := js "unclosed";
                 url := None; photos := None;
                 likes := zero; num_comments := zero |} ]
       /\ searchResults st' = posts st'
       /\ posts st' <> [postOf (js "shown before") (VArray [])]
       /\ console st' = [].
Proof.
  split.
  - intros H name rows reported st.
    destruct (processData_returns rows) as [loaded [E _]].
    exists loaded. eexists. split; [exact E|].
    cbn [handleFileUpload data]. rewrite E. cbn. repeat split.
  - eexists. split; [reflexivity|]. cbn.
    repeat split. discriminate.
Qed.

(** ** Search *)

Lemma filterM_pure {A : Type} (f : A -> Completion bool) (g : A -> bool)
    (xs : list A) :
  Forall (fun x => f x = Normal (g x)) xs ->
  filterM f xs = Normal (filter g xs).
Proof.
  induction 1 as [|x xs Hx _ IH]; [reflexivity|].
  simpl. rewrite Hx. simpl. rewrite IH. simpl. now destruct (g x).
Qed.

Lemma filterM_ext {A : Type} (f g : A -> Completion bool) (xs : list A) :
  (forall x, f x = g x) -> filterM f xs = filterM g xs.
Proof.
  intros Hfg. induction xs as [|x xs IH]; [reflexivity|].
  simpl. now rewrite Hfg, IH.
Qed.

Lemma someM_ext {A : Type} (f g : A -> Completion bool) (xs : list A) :
  (forall x, f x = g x) -> someM f xs = someM g xs.
Proof.
  intros Hfg. induction xs as [|x xs IH]; [reflexivity|].
  simpl. now rewrite Hfg, IH.
Qed.

Lemma filter_all {A : Type} (g : A -> bool) (xs : list A) :
  (forall x, g x = true) -> filter g xs = xs.
Proof.
  intros Hg. induction xs as [|x xs IH]; [reflexivity|].
  simpl. now rewrite Hg, IH.
Qed.

Lemma stringsOf_Some (vs : list JSValue) (tags : list jsstring) :
  stringsOf vs = Some tags -> vs = map VString tags.
Proof.
  revert tags. induction vs as [|v vs IH]; intros tags E.
  - injection E as <-. reflexivity.
  - destruct v; try discriminate. cbn [stringsOf] in E.
    destruct (stringsOf vs) as [ss|]; [|discriminate].
    injection E as <-. simpl. now rewrite (IH ss eq_refl).
Qed.

Lemma replaceFirst_head (c : codeunit) (s : jsstring) :
  replaceFirst [c] [] (c :: s) = s.
Proof. cbn [replaceFirst startsWith]. rewrite N.eqb_refl. reflexivity. Qed.

Lemma replaceFirst_absent (c : codeunit) (s : jsstring) :
  ~ In c s -> replaceFirst [c] [] s = s.
Proof.
  induction s as [|x s IH]; intros Hn; [reflexivity|].
  cbn [replaceFirst startsWith].
  destruct (c =? x) eqn:E.
  - apply N.eqb_eq in E. subst. exfalso. apply Hn. now left.
  - cbn [andb]. rewrite IH; [reflexivity|]. intros Hin. apply Hn. now right.
Qed.

Lemma asciiLower_hash (c : codeunit) : asciiLower c = 35 -> c = 35.
Proof.
  unfold asciiLower, inRange.
  destruct ((65 <=? c) && (c <=? 90)) eqn:E; [|auto].
  apply andb_true_iff in E. destruct E as [E _]. apply N.leb_le in E. lia.
Qed.

Section Search.
Context {H : Host}.

Lemma someM_strings (q : jsstring) (tags : list jsstring) :
  someM (tagMatches q) (map VString tags)
  = Normal (existsb (fun t => includes (toLowerCase t)
                                (replaceFirst (js "#") [] (toLowerCase q))) tags).
Proof.
  induction tags as [|t tags IH]; [reflexivity|].
  cbn [map someM tagMatches bind existsb].
  destruct (includes (toLowerCase t) _); [reflexivity | exact IH].
Qed.

Lemma postMatches_wellTyped (q : jsstring) (post : InstagramPost) :
  wellTyped post ->
  postMatches q true post
  = Normal (existsb (fun t => includes (toLowerCase t)
                                (replaceFirst (js "#") [] (toLowerCase q)))
              (tagList post)).
Proof.
  unfold wellTyped, tagList, tagsOf, postMatches.
  destruct (hashtags post) as [| | | |vs|]; try congruence.
  destruct (stringsOf vs) as [tags|] eqn:E; [|congruence].
  intros _. rewrite (stringsOf_Some _ E). apply someM_strings.
Qed.

(** Two queries that give the same search text select the same Posts
    in tag mode, whatever the dataset holds. *)
Lemma searchIn_same_needle (posts : list InstagramPost) (q1 q2 : jsstring) :
  q1 <> [] -> q2 <> [] ->
  replaceFirst (js "#") [] (toLowerCase q1)
  = replaceFirst (js "#") [] (toLowerCase q2) ->
  searchIn posts q1 true = searchIn posts q2 true.
Proof.
  intros H1 H2 E. unfold searchIn.
  destruct q1 as [|c1 q1]; [congruence|]. destruct q2 as [|c2 q2]; [congruence|].
  cbn [isEmpty]. apply filterM_ext. intros post. unfold postMatches.
  destruct (hashtags post); try reflexivity.
  apply someM_ext. intros tag. unfold tagMatches. now rewrite E.
Qed.

(** C4, as the code has it.  The empty string as query makes search
    return the full dataset, unfiltered and in its order, in both
    modes.  (A query of white space only is not empty for the code and
    is matched like any other.) *)
Theorem C4_empty_query_returns_all (posts : list InstagramPost)
    (isHashtagSearch : bool) :
  searchIn posts [] isHashtagSearch = Normal posts.
Proof. reflexivity. Qed.

Context {HS : HostSpec H}.

Lemma toLowerCase_nil : toLowerCase [] = [].
Proof. rewrite toLowerCase_ascii; [reflexivity | constructor]. Qed.

(** C5. In text mode search returns, in dataset order, exactly the
    Posts whose clean description, lower-cased, contains the lower-cased
    query as a substring; the query [SUN] selects the Posts whose
    lower-cased clean description contains [sun]. *)
Theorem C5_text_search (posts : list InstagramPost) (q : jsstring) :
  (exists results,
      searchIn posts q false = Normal results
      /\ results
         = filter (fun post =>
                     includes (toLowerCase (clean_description post))
                              (toLowerCase q)) posts
      /\ forall post,
           In post results
           <-> In post posts
               /\ exists a b,
                    toLowerCase (clean_description post) = a ++ toLowerCase q ++ b)
  /\ searchIn posts (js "SUN") false
     = Normal (filter (fun post =>
                         includes (toLowerCase (clean_description post))
                                  (js "sun")) posts).
Proof.
  assert (Hgen : forall q',
             searchIn posts q' false
             = Normal (filter (fun post =>
                                 includes (toLowerCase (clean_description post))
                                          (toLowerCase q')) posts)).
  { intros q'. unfold searchIn. destruct q' as [|c q']; cbn [isEmpty].
    - rewrite toLowerCase_nil, filter_all; [reflexivity|].
      intros post. apply includes_nil.
    - apply filterM_pure. apply Forall_forall. intros post _. reflexivity. }
  split.
  - eexists. split; [apply Hgen|]. split; [reflexivity|].
    intros post. rewrite filter_In, includes_substring. reflexivity.
  - rewrite Hgen. rewrite (@toLowerCase_ascii H HS (js "SUN")); [reflexivity|].
    repeat constructor.
Qed.

(** C3, as the code has it.  In tag mode and for a non-empty query,
    search returns, in dataset order, exactly the Posts with at least one
    tag whose lower-cased text contains, as a substring, the lower-cased
    query from which the first [#], wherever it stands, has been removed.
    The queries [#travel] and [travel] give the same result on every
    dataset, and so do [#q] and [q] for every non-empty ASCII query [q]
    without a [#]. *)
Theorem C3_tag_search :
  (forall posts q,
      q <> [] -> Forall wellTyped posts ->
      exists results,
        searchIn posts q true = Normal results
        /\ results
           = filter (fun post =>
                       existsb (fun t =>
                                  includes (toLowerCase t)
                                    (replaceFirst (js "#") [] (toLowerCase q)))
                               (tagList post)) posts
        /\ forall post,
             In post results
             <-> In post posts
                 /\ exists tag a b,
                      In tag (tagList post)
                      /\ toLowerCase tag
                         = a ++ replaceFirst (js "#") [] (toLowerCase q) ++ b)
  /\ (forall posts,
        searchIn posts (js "#travel") true = searchIn posts (js "travel") true)
  /\ (forall posts q,
        q <> [] -> isASCII q -> ~ In 35 q ->
        searchIn posts (35 :: q) true = searchIn posts q true).
Proof.
  assert (Hhash : forall posts q,
             q <> [] -> isASCII q -> ~ In 35 q ->
             searchIn posts (35 :: q) true = searchIn posts q true).
  { intros posts q Hq Hascii Hno.
    apply searchIn_same_needle; [discriminate | exact Hq |].
    rewrite (@toLowerCase_ascii H HS (35 :: q)) by (constructor; [reflexivity | exact Hascii]).
    rewrite (@toLowerCase_ascii H HS q) by exact Hascii.
    change (js "#") with [35]. cbn [map].
    change (asciiLower 35) with 35. rewrite replaceFirst_head.
    symmetry. apply replaceFirst_absent.
    intros Hin. apply in_map_iff in Hin. destruct Hin as [c [Hc Hin]].
    apply asciiLower_hash in Hc. subst. contradiction. }
  split; [|split].
  - intros posts q Hq Hwt. eexists. split; [|split; [reflexivity|]].
    + unfold searchIn. destruct q as [|c q]; [congruence|]. cbn [isEmpty].
      apply filterM_pure. eapply Forall_impl; [|exact Hwt].
      intros post Hp. now apply postMatches_wellTyped.
    + intros post. rewrite filter_In, existsb_exists. split.
      * intros [Hin [tag [Htag Hincl]]]. split; [exact Hin|].
        apply includes_substring in Hincl. destruct Hincl as [a [b Hab]].
        now exists tag, a, b.
      * intros [Hin [tag [a [b [Htag Hab]]]]]. split; [exact Hin|].
        exists tag. split; [exact Htag|].
        apply includes_substring. now exists a, b.
  - intros posts. apply (Hhash posts (js "travel")).
    + discriminate.
    + repeat constructor.
    + intros Hin. repeat (destruct Hin as [Hin | Hin]; [discriminate|]). exact Hin.
  - exact Hhash.
Qed.

End Search.

Lemma C5_text_search_witness :
  searchIn (H := RefHost.host)
    [postOf (js "Sunny day") (VArray []); postOf (js "Rain") (VArray [])]
    (js "SUN") false
  = Normal [postOf (js "Sunny day") (VArray [])].
Proof.
  exact (proj2 (@C5_text_search RefHost.host RefHost_spec
                  [postOf (js "Sunny day") (VArray []); postOf (js "Rain") (VArray [])]
                  (js "SUN"))).
Defined.

Lemma C3_tag_search_witness :
  (exists results,
      searchIn (H := RefHost.host)
        [postOf [] (VArray [VString (js "Travel")]); postOf [] (VArray [])]
        (js "#TRAV") true
      = Normal results
      /\ results = [postOf [] (VArray [VString (js "Travel")])])
  /\ searchIn (H := RefHost.host)
       [postOf [] (VArray [VString (js "Sunset")]); postOf [] (VNumber zero)]
       (js "#sun") true
     = searchIn (H := RefHost.host)
         [postOf [] (VArray [VString (js "Sunset")]); postOf [] (VNumber zero)]
         (js "sun") true.
Proof.
  destruct (@C3_tag_search RefHost.host RefHost_spec) as [Hexact [_ Hhash]].
  split.
  - destruct (Hexact [postOf [] (VArray [VString (js "Travel")]); postOf [] (VArray [])]
                (js "#TRAV")) as [results [E [Hr _]]].
    + discriminate.
    + repeat constructor; discriminate.
    + exists results. split; [exact E | exact Hr].
  - apply (Hhash [postOf [] (VArray [VString (js "Sunset")]); postOf [] (VNumber zero)]
             (js "sun")).
    + discriminate.
    + repeat constructor.
    + intros Hin. repeat (destruct Hin as [Hin | Hin]; [discriminate|]). exact Hin.
Defined.

(** C3, as stated, fails: for the query [c#] the code removes the [#]
    although it is not leading and searches for [c], so the Post tagged
    [cat] is returned; no tag of it contains [c#], the query with a
    leading [#] stripped. *)
Lemma C3_counterexample :
  searchIn (H := RefHost.host) [postOf [] (VArray [VString (js "cat")])] (js "c#") true
  = Normal [postOf [] (VArray [VString (js "cat")])]
  /\ filter (fun post =>
               existsb (fun t =>
                          includes (toLowerCase (Host := RefHost.host) t)
                            (AsStated.stripLeadingHash
                               (toLowerCase (Host := RefHost.host) (js "c#"))))
                       (tagList post))
            [postOf [] (VArray [VString (js "cat")])]
     = [].
Proof. split; reflexivity. Qed.

(** C4, as stated, fails: the query of one space is blank, yet in text
    mode it drops the Post whose clean description [Hello] holds no
    space, and in tag mode it drops the Post that has no tag. *)
Lemma C4_counterexample :
  AsStated.blank (js " ") = true
  /\ searchIn (H := RefHost.host) [postOf (js "Hello") (VArray [])] (js " ") false
     = Normal []
  /\ searchIn (H := RefHost.host) [postOf (js "Hello") (VArray [])] (js " ") true
     = Normal [].
Proof. repeat split. Qed.

(* ================================================================== *)
(** * Part III. Further properties of the component *)
(* ================================================================== *)

(** ** [createEmbedHtml] *)

Lemma splitOn_nonempty (c : codeunit) (s : jsstring) : splitOn c s <> [].
Proof.
  induction s as [|x s IH]; simpl; [discriminate|].
  destruct (x =? c); [discriminate|].
  destruct (splitOn c s); [contradiction | discriminate].
Qed.

Lemma splitOn_free (c : codeunit) (s : jsstring) :
  ~ In c s -> splitOn c s = [s].
Proof.
  induction s as [|x s IH]; intros Hn; [reflexivity|].
  simpl. destruct (N.eqb_spec x c) as [->|Hx].
  - exfalso. apply Hn. now left.
  - rewrite IH; [reflexivity|]. intros Hin. apply Hn. now right.
Qed.

Lemma splitOn_app (c : codeunit) (a b : jsstring) :
  splitOn c (a ++ c :: b) = splitOn c a ++ splitOn c b.
Proof.
  induction a as [|x a IH]; simpl.
  - now rewrite N.eqb_refl.
  - rewrite IH. destruct (x =? c); [reflexivity|].
    pose proof (splitOn_nonempty c a) as Hne.
    destruct (splitOn c a); [contradiction | reflexivity].
Qed.

(** No piece holds the separator. *)
Lemma splitOn_pieces (c : codeunit) (s : jsstring) :
  Forall (fun seg => ~ In c seg) (splitOn c s).
Proof.
  induction s as [|x s IH]; simpl.
  - constructor; [intros [] | constructor].
  - destruct (N.eqb_spec x c) as [->|Hx].
    + constructor; [intros [] | exact IH].
    + destruct (splitOn c s) as [|seg segs]; [repeat constructor; intros [E|[]]; congruence|].
      inversion IH as [|? ? Hseg Hsegs]; subst. constructor; [|exact Hsegs].
      intros [E | Hin]; [congruence | contradiction].
Qed.

Lemma arraySlice_last_two {A : Type} (xs : list A) (a b : A) :
  arraySlice (xs ++ [a; b]) (-2) = [a; b].
Proof.
  unfold arraySlice, sliceIndex. rewrite length_app. cbn [length].
  replace (-2 <? 0)%Z with true by reflexivity.
  rewrite Z.max_l by lia.
  replace (Z.to_nat (Z.of_nat (length xs + 2) + -2)) with (length xs) by lia.
  rewrite skipn_app, Nat.sub_diag, skipn_all. reflexivity.
Qed.

Lemma arraySlice_incl {A : Type} (xs : list A) (start : Z) (x : A) :
  In x (arraySlice xs start) -> In x xs.
Proof.
  unfold arraySlice. intros Hin. rewrite <- (firstn_skipn (Z.to_nat (sliceIndex (Z.of_nat (length xs)) start)) xs).
  apply in_or_app. now right.
Qed.

Lemma arraySlice_head {A : Type} (xs : list A) :
  xs <> [] -> exists x, nth_error (arraySlice xs (-2)) 0 = Some x /\ In x xs.
Proof.
  intros Hne.
  assert (Hs : arraySlice xs (-2) <> []).
  { unfold arraySlice, sliceIndex. replace (-2 <? 0)%Z with true by reflexivity.
    intros E. apply (f_equal (@length A)) in E. rewrite length_skipn in E.
    destruct xs; [congruence|]. simpl length in E. lia. }
  destruct (arraySlice xs (-2)) as [|x rest] eqn:E; [congruence|].
  exists x. split; [reflexivity|]. apply (@arraySlice_incl A xs (-2)).
  rewrite E. now left.
Qed.

Lemma createEmbedHtml_pieces (before : list jsstring) (id tail url : jsstring) :
  splitOn 47 url = before ++ [id; tail] ->
  createEmbedHtml url = js "https://www.instagram.com/p/" ++ id ++ js "/embed".
Proof.
  intros E. unfold createEmbedHtml. now rewrite E, arraySlice_last_two.
Qed.

Lemma createEmbedHtml_segment (before id tail : jsstring) :
  ~ In 47 id -> ~ In 47 tail ->
  createEmbedHtml (before ++ 47 :: id ++ 47 :: tail)
  = js "https://www.instagram.com/p/" ++ id ++ js "/embed".
Proof.
  intros Hid Htail. apply createEmbedHtml_pieces with (before := splitOn 47 before) (tail := tail).
  now rewrite !splitOn_app, (@splitOn_free 47 id Hid), (@splitOn_free 47 tail Htail).
Qed.

(** X1. The address handed to the iframe is built from the piece of the URL
    between its last two slashes: the post identifier when the URL ends
    with a slash or with a query after the slash, but the piece before
    the identifier when nothing follows the identifier.  With a single
    slash it is the piece before that slash, and without any slash it is
    the whole text. *)
Theorem embed_address_uses_second_to_last_piece :
  (forall before id tail,
      ~ In 47 id -> ~ In 47 tail ->
      createEmbedHtml (before ++ 47 :: id ++ 47 :: tail)
      = js "https://www.instagram.com/p/" ++ id ++ js "/embed")
  /\ (forall id tail,
        ~ In 47 id -> ~ In 47 tail ->
        createEmbedHtml (id ++ 47 :: tail)
        = js "https://www.instagram.com/p/" ++ id ++ js "/embed")
  /\ (forall url,
        ~ In 47 url ->
        createEmbedHtml url
        = js "https://www.instagram.com/p/" ++ url ++ js "/embed").
Proof.
  split; [exact createEmbedHtml_segment|]. split.
  - intros id tail Hid Htail.
    apply createEmbedHtml_pieces with (before := []) (tail := tail).
    now rewrite splitOn_app, (@splitOn_free 47 id Hid), (@splitOn_free 47 tail Htail).
  - intros url Hurl. unfold createEmbedHtml. now rewrite (@splitOn_free 47 url Hurl).
Qed.

Lemma embed_address_uses_second_to_last_piece_witness :
  createEmbedHtml (js "https://www.instagram.com/p/Cx1/?img_index=1")
  = js "https://www.instagram.com/p/Cx1/embed"
  /\ createEmbedHtml (js "https://www.instagram.com/p/Cx1")
     = js "https://www.instagram.com/p/p/embed"
  /\ createEmbedHtml (js "p/Cx1") = js "https://www.instagram.com/p/p/embed"
  /\ createEmbedHtml (js "Cx1") = js "https://www.instagram.com/p/Cx1/embed".
Proof.
  destruct embed_address_uses_second_to_last_piece as [Htwo [Hone Hnone]].
  assert (Hfree : forall s : jsstring, forallb (fun c => negb (c =? 47)) s = true -> ~ In 47 s).
  { intros s Hs Hin. rewrite forallb_forall in Hs. specialize (Hs 47 Hin). discriminate. }
  split; [|split; [|split]].
  - apply (Htwo (js "https://www.instagram.com/p") (js "Cx1") (js "?img_index=1"));
      apply Hfree; reflexivity.
  - apply (Htwo (js "https://www.instagram.com") (js "p") (js "Cx1"));
      apply Hfree; reflexivity.
  - apply (Hone (js "p") (js "Cx1")); apply Hfree; reflexivity.
  - apply (Hnone (js "Cx1")); apply Hfree; reflexivity.
Defined.

(** X2. Building the embed address of an embed address changes nothing, for
    every text: the identifier taken from a URL holds no slash and is
    never [undefined]. *)
Theorem createEmbedHtml_idempotent (url : jsstring) :
  createEmbedHtml (createEmbedHtml url) = createEmbedHtml url
  /\ exists id,
       ~ In 47 id
       /\ createEmbedHtml url
          = js "https://www.instagram.com/p/" ++ id ++ js "/embed".
Proof.
  assert (Hid : exists id,
             ~ In 47 id
             /\ createEmbedHtml url
                = js "https://www.instagram.com/p/" ++ id ++ js "/embed").
  { destruct (@arraySlice_head _ (splitOn 47 url) (splitOn_nonempty 47 url)) as [id [E Hin]].
    exists id. split.
    - pose proof (splitOn_pieces 47 url) as Hp. rewrite Forall_forall in Hp.
      now apply Hp.
    - unfold createEmbedHtml. now rewrite E. }
  split; [|exact Hid].
  destruct Hid as [id [Hfree E]]. rewrite E.
  change (js "https://www.instagram.com/p/" ++ id ++ js "/embed")
    with (js "https://www.instagram.com/p" ++ 47 :: id ++ 47 :: js "embed").
  apply createEmbedHtml_segment; [exact Hfree|].
  intros Hin. repeat (destruct Hin as [Hin | Hin]; [discriminate|]). exact Hin.
Qed.

(** ** Tag and photo lists that parse *)

Lemma leading_length (spaces k : jsstring) (pre : list jsstring) :
  (length pre + length k <= length (leading spaces pre k))%nat.
Proof.
  induction pre as [|t pre IH]; simpl; [lia|].
  rewrite length_app. simpl. rewrite length_app. lia.
Qed.

Lemma elements_accepted (spaces t rest : jsstring) (pre : list jsstring) (fuel : nat) :
  forallb isJSONSpace spaces = true ->
  forallb (forallb isPlain) pre = true ->
  forallb isPlain t = true ->
  (length pre + 1 < fuel)%nat ->
  parseElements fuel (leading spaces pre (34 :: t ++ 34 :: 93 :: rest))
  = Parsed (map VString (pre ++ [t])) rest.
Proof.
  intros Hsp Hpre Ht. revert fuel Hpre.
  induction pre as [|p pre IH]; intros fuel Hpre Hfuel.
  - destruct fuel as [|[|f]]; [simpl in Hfuel; lia | simpl in Hfuel; lia |].
    rewrite parseElements_step. cbn [leading].
    rewrite parseValue_plain_string by exact Ht. reflexivity.
  - cbn [forallb] in Hpre. apply andb_true_iff in Hpre. destruct Hpre as [Hp Hpre].
    destruct fuel as [|[|f]]; [simpl in Hfuel; lia | simpl in Hfuel; lia |].
    rewrite parseElements_step. cbn [leading].
    rewrite parseValue_plain_string by exact Hp.
    cbn [andThen skipWS]. change (isJSONSpace 44) with false. cbv iota.
    change (44 =? 44) with true. cbv iota.
    rewrite parseElements_spaces by exact Hsp.
    rewrite IH; [reflexivity | exact Hpre | simpl in Hfuel; lia].
Qed.

Lemma plain_list_shape (spaces t : jsstring) (pre : list jsstring) :
  forallb isJSONSpace spaces = true ->
  forallb (forallb isPlain) pre = true ->
  forallb isPlain t = true ->
  replaceEvery 39 [34]
    (joinWith (44 :: spaces) (map quoted (pre ++ [t])) ++ [93])
  = leading spaces pre (34 :: t ++ [34; 93]).
Proof.
  intros Hsp Hpre Ht. induction pre as [|p pre IH].
  - cbn [app map joinWith leading].
    rewrite replaceEvery_app, replaceEvery_quoted, (replaceEvery_plain _ Ht).
    cbn [app]. now rewrite <- app_assoc.
  - cbn [forallb] in Hpre. apply andb_true_iff in Hpre. destruct Hpre as [Hp Hpre].
    cbn [app map leading].
    destruct (map quoted (pre ++ [t])) as [|y ys] eqn:Hm.
    { destruct pre; discriminate. }
    rewrite joinWith_cons, <- !app_assoc, replaceEvery_app, replaceEvery_quoted.
    rewrite (replaceEvery_plain _ Hp), replaceEvery_app.
    change (replaceEvery 39 [34] (44 :: spaces))
      with (44 :: replaceEvery 39 [34] spaces).
    rewrite (replaceEvery_spaces _ Hsp), (IH Hpre).
    cbn [app]. now rewrite <- !app_assoc.
Qed.

(** A list of plain texts written with single quotes is read back as
    that list. *)
Lemma tryParseJSON_encoded (spaces : jsstring) (tags : list jsstring) :
  forallb isJSONSpace spaces = true ->
  forallb (forallb isPlain) tags = true ->
  tryParseJSON (Some (encodeTags (44 :: spaces) tags))
  = Normal (VArray (map VString tags)).
Proof.
  intros Hsp Htags.
  destruct tags as [|x xs]; [reflexivity|].
  destruct (@exists_last _ (x :: xs)) as [pre [t E]]; [discriminate|].
  rewrite E in *. clear E x xs.
  rewrite forallb_app in Htags. apply andb_true_iff in Htags.
  destruct Htags as [Hpre Ht]. cbn [forallb] in Ht. rewrite andb_true_r in Ht.
  apply tryParseJSON_parsed; [discriminate|].
  unfold encodeTags.
  change (replaceEvery 39 [34] (91 :: ?x)) with (91 :: replaceEvery 39 [34] x).
  rewrite (plain_list_shape spaces t pre Hsp Hpre Ht).
  unfold JSON_parse.
  set (body := leading spaces pre (34 :: t ++ [34; 93])).
  rewrite Nat.add_1_r. cbn [parseValue skipWS].
  change (isJSONSpace 91) with false. cbv iota.
  change (91 =? 91) with true. cbv iota.
  assert (Hhead : exists r, skipWS body = 34 :: r).
  { subst body. destruct pre; cbn [leading skipWS];
      change (isJSONSpace 34) with false; cbv iota; now eexists. }
  destruct Hhead as [r ->].
  change (34 =? 93) with false. cbv iota.
  subst body. change (34 :: t ++ [34; 93]) with (34 :: t ++ 34 :: 93 :: []).
  rewrite elements_accepted; [reflexivity | exact Hsp | exact Hpre | exact Ht |].
  pose proof (leading_length spaces (34 :: t ++ 34 :: 93 :: []) pre) as Hl.
  cbn [length] in *. lia.
Qed.

Lemma stringsOf_map (tags : list jsstring) :
  stringsOf (map VString tags) = Some tags.
Proof. induction tags as [|t tags IH]; simpl; [reflexivity | now rewrite IH]. Qed.

(** X3. A tag column that lists plain texts between single quotes, with a
    comma and optional JSON white space between them, is read back as
    exactly those texts, and the Post loaded from a row with that column
    carries them as its tags, in order. *)
Theorem tag_column_round_trip {H : Host} (spaces : jsstring) (tags : list jsstring) :
  forallb isJSONSpace spaces = true ->
  forallb (forallb isPlain) tags = true ->
  tryParseJSON (Some (encodeTags (44 :: spaces) tags))
  = Normal (VArray (map VString tags))
  /\ forall row post,
       Raw.hashtags row = Some (encodeTags (44 :: spaces) tags) ->
       processPost row = Normal post ->
       hashtags post = VArray (map VString tags) /\ tagsOf post = Some tags.
Proof.
  intros Hsp Htags.
  pose proof (tryParseJSON_encoded spaces tags Hsp Htags) as Hparse.
  split; [exact Hparse|].
  intros row post Hcol Hpost.
  destruct (processPost_returns row) as [v [Hv Hq]].
  rewrite Hcol, Hparse in Hv. injection Hv as <-.
  rewrite Hq in Hpost. injection Hpost as <-.
  unfold tagsOf. cbn. split; [reflexivity | apply stringsOf_map].
Qed.

Lemma tag_column_round_trip_witness :
  tryParseJSON (Some (js "['cat', 'dog']"))
  = Normal (VArray [VString (js "cat"); VString (js "dog")])
  /\ tagsOf {| date_posted := js "01.05.2024, 00:00"; description := None;
               hashtags := VArray [VString (js "cat"); VString (js "dog")];
               clean_description := []; url := None; photos := None;
               likes := zero; num_comments := zero |}
     = Some [js "cat"; js "dog"].
Proof.
  destruct (@tag_column_round_trip RefHost.host (js " ") [js "cat"; js "dog"]
              eq_refl eq_refl) as [Hparse Hload].
  split; [exact Hparse|].
  apply (Hload (rowOf (Some (js "2024-05-01")) (Some (js "['cat', 'dog']")))); reflexivity.
Defined.

(** ** What a card shows beside the text *)

(** X4. A Post with a non-empty URL shows the iframe and its photos are not
    looked at.  Without a URL, a photo column that lists plain addresses
    shows the first one; a photo column that is not JSON after the quotes
    are replaced gives an image whose source is [undefined].  Choosing
    the media never throws. *)
Theorem media_of_a_post (post : InstagramPost) :
  (exists m, media post = Normal m)
  /\ (truthy (url post) = true ->
      media post = Normal (Iframe (createEmbedHtml (stringOr (url post) []))))
  /\ (forall spaces first more,
        truthy (url post) = false ->
        forallb isJSONSpace spaces = true ->
        forallb (forallb isPlain) (first :: more) = true ->
        photos post = Some (encodeTags (44 :: spaces) (first :: more)) ->
        media post = Normal (Image (Some (VString first))))
  /\ (forall text e,
        truthy (url post) = false ->
        photos post = Some text -> text <> [] ->
        JSON_parse (replaceEvery 39 [34] text) = Throw e ->
        media post = Normal (Image None)).
Proof.
  unfold media. split; [|split; [|split]].
  - destruct (truthy (url post)); [now eexists|].
    destruct (truthy (photos post)); [|now eexists].
    destruct (tryParseJSON_returns (photos post)) as [v ->]. now eexists.
  - intros ->. reflexivity.
  - intros spaces first more -> Hsp Hplain Hphotos. rewrite Hphotos.
    rewrite (tryParseJSON_encoded spaces (first :: more) Hsp Hplain). reflexivity.
  - intros text e -> Hphotos Hne Hthrow. rewrite Hphotos.
    rewrite (tryParseJSON_malformed text Hthrow).
    destruct text; [congruence | reflexivity].
Qed.

Lemma media_of_a_post_witness :
  media {| date_posted := []; description := None; hashtags := VArray [];
           clean_description := []; url := Some (js "https://www.instagram.com/p/Cx1/");
           photos := Some (js "['https://cdn.example/a.jpg']");
           likes := zero; num_comments := zero |}
  = Normal (Iframe (js "https://www.instagram.com/p/Cx1/embed"))
  /\ media {| date_posted := []; description := None; hashtags := VArray [];
              clean_description := []; url := Some [];
              photos := Some (js "['https://cdn.example/a.jpg', 'https://cdn.example/b.jpg']");
              likes := zero; num_comments := zero |}
     = Normal (Image (Some (VString (js "https://cdn.example/a.jpg"))))
  /\ media {| date_posted := []; description := None; hashtags := VArray [];
              clean_description := []; url := None;
              photos := Some (js "['it's.jpg']");
              likes := zero; num_comments := zero |}
     = Normal (Image None).
Proof.
  split; [|split].
  - exact (proj1 (proj2 (media_of_a_post
             {| date_posted := []; description := None; hashtags := VArray [];
                clean_description := [];
                url := Some (js "https://www.instagram.com/p/Cx1/");
                photos := Some (js "['https://cdn.example/a.jpg']");
                likes := zero; num_comments := zero |})) eq_refl).
  - exact (proj1 (proj2 (proj2 (media_of_a_post
             {| date_posted := []; description := None; hashtags := VArray [];
                clean_description := []; url := Some [];
                photos := Some (js "['https://cdn.example/a.jpg', 'https://cdn.example/b.jpg']");
                likes := zero; num_comments := zero |})))
             (js " ") (js "https://cdn.example/a.jpg") [js "https://cdn.example/b.jpg"]
             eq_refl eq_refl eq_refl eq_refl).
  - apply (proj2 (proj2 (proj2 (media_of_a_post _))) (js "['it's.jpg']") SyntaxError);
      [reflexivity | reflexivity | discriminate | reflexivity].
Defined.

(** ** More on search and on highlighting *)

Lemma includes_refl (s : jsstring) : includes s s = true.
Proof. apply includes_substring. exists [], []. now rewrite app_nil_r. Qed.

Lemma filterM_throws {A : Type} (f : A -> Completion bool) (xs : list A)
    (x : A) (err : JSError) :
  (forall y e, f y = Throw e -> e = err) ->
  In x xs -> f x = Throw err ->
  filterM f xs = Throw err.
Proof.
  intros Honly Hin Hx. induction xs as [|y xs IH]; [contradiction|].
  simpl. destruct Hin as [-> | Hin].
  - now rewrite Hx.
  - destruct (f y) as [b|e] eqn:Hy; simpl.
    + now rewrite (IH Hin).
    + now rewrite (Honly y e Hy).
Qed.

Lemma filterM_Subseq {A : Type} (f : A -> Completion bool) (xs ys : list A) :
  filterM f xs = Normal ys -> Subseq ys xs.
Proof.
  revert ys. induction xs as [|x xs IH]; intros ys E.
  - injection E as <-. constructor.
  - simpl in E. destruct (f x) as [b|e]; [|discriminate]. simpl in E.
    destruct (filterM f xs) as [zs|e]; [|discriminate]. simpl in E.
    injection E as <-. destruct b; constructor; now apply IH.
Qed.

Lemma Subseq_refl {A : Type} (xs : list A) : Subseq xs xs.
Proof. induction xs; constructor; assumption. Qed.

Lemma Subseq_In {A : Type} (xs ys : list A) (x : A) :
  Subseq xs ys -> In x xs -> In x ys.
Proof.
  induction 1 as [|y xs ys _ IH|y xs ys _ IH]; intros Hin.
  - exact Hin.
  - right. now apply IH.
  - destruct Hin as [-> | Hin]; [now left | right; now apply IH].
Qed.

Section MoreSearch.
Context {H : Host}.

Lemma someM_only_TypeError (q : jsstring) (tags : list JSValue) (e : JSError) :
  someM (tagMatches q) tags = Throw e -> e = TypeError.
Proof.
  induction tags as [|t tags IH]; [discriminate|].
  simpl. destruct t; simpl; try (intros E; now injection E).
  destruct (includes _ _); [discriminate | exact IH].
Qed.

Lemma postMatches_only_TypeError (q : jsstring) (mode : bool)
    (post : InstagramPost) (e : JSError) :
  postMatches q mode post = Throw e -> e = TypeError.
Proof.
  unfold postMatches. destruct mode; [|discriminate].
  destruct (hashtags post); try (intros E; now injection E).
  apply someM_only_TypeError.
Qed.

(** X5. One Post whose [hashtags] is not an array makes every tag search
    with a non-empty query throw a TypeError, whatever the query and the
    other Posts are; the click then changes nothing on the page.  Text
    search is not affected. *)
Theorem tag_search_fails_on_non_array (st : State) (post : InstagramPost) :
  searchTerm st <> [] ->
  In post (posts st) ->
  (forall elems, hashtags post <> VArray elems) ->
  searchIn (posts st) (searchTerm st) true = Throw TypeError
  /\ (isHashtagSearch st = true -> step st SearchClicked = st)
  /\ exists results, searchIn (posts st) (searchTerm st) false = Normal results.
Proof.
  intros Hq Hin Hbad.
  assert (Hthrow : searchIn (posts st) (searchTerm st) true = Throw TypeError).
  { unfold searchIn. destruct (searchTerm st) as [|c q]; [congruence|]. cbn [isEmpty].
    apply filterM_throws with (x := post).
    - intros y e. apply postMatches_only_TypeError.
    - exact Hin.
    - unfold postMatches. destruct (hashtags post); try reflexivity.
      exfalso. now apply (Hbad elems). }
  split; [exact Hthrow|]. split.
  - intros Hmode. unfold step, handle, searchPosts. now rewrite Hmode, Hthrow.
  - unfold searchIn. destruct (searchTerm st) as [|c q]; cbn [isEmpty]; [now eexists|].
    eexists. apply filterM_pure. apply Forall_forall. intros p _. reflexivity.
Qed.

(** X6. Searching in tag mode for the text of a tag, when its lower-cased
    form holds no [#], returns every Post that carries that tag. *)
Theorem tag_search_finds_own_tag (posts : list InstagramPost)
    (post : InstagramPost) (tag : jsstring) :
  Forall wellTyped posts ->
  In post posts -> In tag (tagList post) ->
  ~ In 35 (toLowerCase tag) ->
  exists results,
    searchIn posts tag true = Normal results
    /\ In post results /\ Subseq results posts.
Proof.
  intros Hwt Hin Htag Hhash. unfold searchIn.
  destruct (isEmpty tag).
  - exists posts. split; [reflexivity|]. split; [exact Hin | apply Subseq_refl].
  - assert (E : filterM (postMatches tag true) posts
                = Normal (filter (fun p =>
                                    existsb (fun t =>
                                               includes (toLowerCase t)
                                                 (replaceFirst (js "#") [] (toLowerCase tag)))
                                            (tagList p)) posts)).
    { apply filterM_pure. eapply Forall_impl; [|exact Hwt].
      intros p Hp. now apply postMatches_wellTyped. }
    eexists. split; [exact E|]. split.
    + apply filter_In. split; [exact Hin|].
      apply existsb_exists. exists tag. split; [exact Htag|].
      change (js "#") with [35]. rewrite replaceFirst_absent by exact Hhash.
      apply includes_refl.
    + eapply filterM_Subseq. exact E.
Qed.

(** X7. In tag mode, for a non-empty query whose lower-cased form holds no
    [#], the Posts returned are exactly those with at least one
    highlighted tag. *)
Theorem highlight_agrees_with_search (posts : list InstagramPost) (q : jsstring) :
  q <> [] -> ~ In 35 (toLowerCase q) -> Forall wellTyped posts ->
  searchIn posts q true
  = Normal (filter (fun post => existsb (tagHighlighted q true) (tagList post)) posts).
Proof.
  intros Hq Hhash Hwt. unfold searchIn.
  destruct (isEmpty q) eqn:Eq; [destruct q; [congruence | discriminate]|].
  apply filterM_pure. eapply Forall_impl; [|exact Hwt].
  intros post Hp. rewrite (postMatches_wellTyped q Hp).
  change (js "#") with [35]. rewrite replaceFirst_absent by exact Hhash.
  reflexivity.
Qed.

Context {HS : HostSpec H}.

Lemma asciiLower_no_hash (s : jsstring) : ~ In 35 s -> ~ In 35 (map asciiLower s).
Proof.
  intros Hn Hin. apply in_map_iff in Hin. destruct Hin as [c [Hc Hin]].
  apply asciiLower_hash in Hc. subst. contradiction.
Qed.

(** X8. Where highlighting departs from the search.  A query [#q] is matched
    against the tags as [q], without its [#], but the highlight test
    keeps the [#]: a tag without [#] is then never highlighted, also on
    the Posts the search returned.  With an empty query every tag is
    highlighted in tag mode; in text mode none is. *)
Theorem highlight_keeps_the_hash :
  (forall q tag,
      isASCII q -> ~ In 35 q -> isASCII tag -> ~ In 35 tag ->
      tagMatches (35 :: q) (VString tag)
      = Normal (includes (map asciiLower tag) (map asciiLower q))
      /\ tagHighlighted (35 :: q) true tag = false)
  /\ (forall tag, tagHighlighted [] true tag = true)
  /\ (forall q tag, tagHighlighted q false tag = false).
Proof.
  split; [|split].
  - intros q tag Hq Hqh Htag Htagh.
    unfold tagMatches, tagHighlighted.
    rewrite (@toLowerCase_ascii H HS (35 :: q)) by (constructor; [reflexivity | exact Hq]).
    rewrite (@toLowerCase_ascii H HS tag) by exact Htag.
    cbn [map]. change (asciiLower 35) with 35. change (js "#") with [35].
    rewrite replaceFirst_head. split; [reflexivity|].
    cbn [andb]. apply not_true_is_false. intros E.
    apply includes_substring in E. destruct E as [a [b E]].
    apply (@asciiLower_no_hash tag Htagh). rewrite E.
    apply in_or_app. right. now left.
  - intros tag. unfold tagHighlighted.
    rewrite (@toLowerCase_ascii H HS []) by constructor. cbn [map andb].
    apply includes_nil.
  - reflexivity.
Qed.

End MoreSearch.

Lemma tag_search_fails_on_non_array_witness :
  let st := {| posts := [postOf [] (VArray [VString (js "cat")]);
                         postOf [] (VNumber (ofN 42))];
               searchTerm := js "cat"; isHashtagSearch := true;
               searchResults := [postOf [] (VArray [VString (js "cat")])];
               console := [] |} in
  searchIn (H := RefHost.host) (posts st) (searchTerm st) true = Throw TypeError
  /\ step (H := RefHost.host) st SearchClicked = st.
Proof.
  intros st.
  destruct (@tag_search_fails_on_non_array RefHost.host st
              (postOf [] (VNumber (ofN 42)))
              ltac:(discriminate)
              ltac:(right; left; reflexivity)
              ltac:(discriminate)) as [Hthrow [Hstep _]].
  split; [exact Hthrow | apply Hstep; reflexivity].
Defined.

Lemma tag_search_finds_own_tag_witness :
  exists results,
    searchIn (H := RefHost.host)
      [postOf [] (VArray []); postOf [] (VArray [VString (js "Sunset"); VString (js "sea")])]
      (js "Sunset") true
    = Normal results
    /\ In (postOf [] (VArray [VString (js "Sunset"); VString (js "sea")])) results
    /\ Subseq results
         [postOf [] (VArray []); postOf [] (VArray [VString (js "Sunset"); VString (js "sea")])].
Proof.
  apply (@tag_search_finds_own_tag RefHost.host).
  - repeat constructor; discriminate.
  - right. left. reflexivity.
  - left. reflexivity.
  - intros Hin. repeat (destruct Hin as [Hin | Hin]; [discriminate|]). exact Hin.
Defined.

Lemma highlight_agrees_with_search_witness :
  searchIn (H := RefHost.host)
    [postOf [] (VArray [VString (js "Cat")]); postOf [] (VArray [VString (js "dog")])]
    (js "cat") true
  = Normal [postOf [] (VArray [VString (js "Cat")])].
Proof.
  apply (@highlight_agrees_with_search RefHost.host).
  - discriminate.
  - intros Hin. repeat (destruct Hin as [Hin | Hin]; [discriminate|]). exact Hin.
  - repeat constructor; discriminate.
Defined.

Lemma highlight_keeps_the_hash_witness :
  tagMatches (H := RefHost.host) (js "#sun") (VString (js "Sunset")) = Normal true
  /\ tagHighlighted (H := RefHost.host) (js "#sun") true (js "Sunset") = false.
Proof.
  apply (proj1 (@highlight_keeps_the_hash RefHost.host RefHost_spec) (js "sun") (js "Sunset")).
  - repeat constructor.
  - intros Hin. repeat (destruct Hin as [Hin | Hin]; [discriminate|]). exact Hin.
  - repeat constructor.
  - intros Hin. repeat (destruct Hin as [Hin | Hin]; [discriminate|]). exact Hin.
Defined.

(** ** More on [cleanDescription] *)

Lemma trimStart_head (s t : jsstring) (c : codeunit) :
  trimStart s = c :: t -> isWhiteSpace c = false.
Proof.
  induction s as [|x s IH]; simpl; [discriminate|].
  destruct (isWhiteSpace x) eqn:Hx; [exact IH|].
  intros E. injection E as <- _. exact Hx.
Qed.

Lemma trimStart_snoc (s : jsstring) (c : codeunit) :
  isWhiteSpace c = false -> trimStart (s ++ [c]) = trimStart s ++ [c].
Proof.
  intros Hc. induction s as [|x s IH]; simpl; [now rewrite Hc|].
  destruct (isWhiteSpace x); [exact IH | reflexivity].
Qed.

Lemma trimStart_idempotent (s : jsstring) : trimStart (trimStart s) = trimStart s.
Proof.
  destruct (trimStart s) as [|c t] eqn:E; [reflexivity|].
  apply trimStart_head in E. simpl. now rewrite E.
Qed.

(** A trimmed text neither begins nor ends with white space. *)
Lemma trim_ends (s : jsstring) :
  (forall c t, trim s = c :: t -> isWhiteSpace c = false)
  /\ (forall t c, trim s = t ++ [c] -> isWhiteSpace c = false).
Proof.
  unfold trim, trimEnd. split.
  - destruct (trimStart s) as [|x u] eqn:Es.
    + intros c t E. discriminate.
    + apply trimStart_head in Es. simpl rev.
      rewrite trimStart_snoc by exact Es. rewrite rev_app_distr. simpl.
      intros c t E. injection E as <- _. exact Es.
  - intros t c E. apply (f_equal (@rev _)) in E.
    rewrite rev_involutive, rev_app_distr in E. simpl in E.
    now apply trimStart_head in E.
Qed.

Lemma trim_idempotent (s : jsstring) : trim (trim s) = trim s.
Proof.
  destruct (trim_ends s) as [Hhead _].
  unfold trim at 1.
  assert (E : trimStart (trim s) = trim s).
  { destruct (trim s) as [|c t] eqn:Et; [reflexivity|].
    simpl. now rewrite (Hhead c t eq_refl). }
  rewrite E. unfold trim, trimEnd.
  now rewrite rev_involutive, trimStart_idempotent.
Qed.

(** The text returned is the trimmed part of the input before the first
    match, or the whole input trimmed. *)
Lemma cleanDescription_prefix (text : jsstring) :
  exists x y,
    text = x ++ y /\ cleanDescription text = trim x
    /\ (y = [] \/ matchesAtStart hashtagPattern y = true).
Proof.
  unfold cleanDescription. destruct text as [|c text]; cbn [isEmpty].
  - exists [], []. repeat split. now left.
  - unfold search.
    destruct (searchFrom hashtagPattern (c :: text) 0) as [k|] eqn:Hs.
    + replace (Z.of_nat k >? -1)%Z with true by (symmetry; apply Z.gtb_lt; lia).
      apply searchFrom_Some in Hs.
      destruct Hs as [a [b [E [Hk [Hb _]]]]]. simpl in Hk. subst k.
      rewrite slice_prefix by (rewrite E, length_app; lia).
      exists a, b. split; [exact E|]. split; [|now right].
      now rewrite E, firstn_app, Nat.sub_diag, firstn_all, firstn_O, app_nil_r.
    + replace (-1 >? -1)%Z with false by reflexivity.
      exists (c :: text), []. split; [now rewrite app_nil_r|]. split; [reflexivity | now left].
Qed.

(** X9. Cleaning a description that is already clean changes nothing. *)
Theorem cleanDescription_idempotent (text : jsstring) :
  cleanDescription (cleanDescription text) = cleanDescription text.
Proof.
  destruct (cleanDescription_prefix text) as [x [y [_ [E _]]]].
  pose proof (search_cleanDescription text) as Hs.
  unfold cleanDescription at 1.
  destruct (cleanDescription text) as [|c r] eqn:Er; [reflexivity|].
  cbn [isEmpty]. rewrite Hs.
  replace (-1 >? -1)%Z with false by reflexivity.
  rewrite E. apply trim_idempotent.
Qed.

(** X10. The clean description is a piece of the description as it stands in
    the file, and it neither begins nor ends with white space. *)
Theorem cleanDescription_is_a_trimmed_piece (text : jsstring) :
  (exists before after, text = before ++ cleanDescription text ++ after)
  /\ trim (cleanDescription text) = cleanDescription text
  /\ (forall c rest, cleanDescription text = c :: rest -> isWhiteSpace c = false)
  /\ (forall rest c, cleanDescription text = rest ++ [c] -> isWhiteSpace c = false).
Proof.
  destruct (cleanDescription_prefix text) as [x [y [Et [E _]]]].
  rewrite E. split; [|split; [apply trim_idempotent | apply trim_ends]].
  destruct (trim_infix x) as [a [b Hx]].
  exists a, (b ++ y). rewrite Et. rewrite Hx at 1. now rewrite <- !app_assoc.
Qed.

Lemma cleanDescription_is_a_trimmed_piece_witness :
  cleanDescription (js "  Great day! #sun") = 71 :: js "reat day!"
  /\ isWhiteSpace 71 = false.
Proof.
  split; [reflexivity|].
  apply (proj1 (proj2 (proj2 (cleanDescription_is_a_trimmed_piece
                                (js "  Great day! #sun")))) 71 (js "reat day!")).
  reflexivity.
Defined.

(** X11. A description that does not begin with white space keeps its first
    character: a hashtag at the very start of the text is not removed,
    since the pattern asks for white space before the [#]. *)
Theorem cleanDescription_keeps_first_character (c : codeunit) (text : jsstring) :
  isWhiteSpace c = false ->
  exists rest, cleanDescription (c :: text) = c :: rest.
Proof.
  intros Hc.
  destruct (cleanDescription_prefix (c :: text)) as [x [y [Et [E Hy]]]].
  assert (Hx : exists x', x = c :: x').
  { destruct x as [|c' x'].
    - simpl in Et. subst y. destruct Hy as [Hy | Hy]; [discriminate|].
      apply hashtagPattern_shape in Hy. destruct Hy as [w [d [r [Ey [Hw _]]]]].
      injection Ey as -> _. congruence.
    - injection Et as -> _. now exists x'. }
  destruct Hx as [x' ->]. rewrite E. unfold trim, trimEnd.
  simpl trimStart. rewrite Hc. simpl rev.
  rewrite trimStart_snoc by exact Hc. rewrite rev_app_distr. simpl. now eexists.
Qed.

Lemma cleanDescription_keeps_first_character_witness :
  exists rest, cleanDescription (js "#sun #fun at the beach") = 35 :: rest.
Proof.
  apply (@cleanDescription_keeps_first_character 35 (js "sun #fun at the beach")).
  reflexivity.
Defined.

(** ** More on the loader *)

Lemma mapM_app {A B : Type} (f : A -> Completion B) (xs ys : list A)
    (us vs : list B) :
  mapM f xs = Normal us -> mapM f ys = Normal vs ->
  mapM f (xs ++ ys) = Normal (us ++ vs).
Proof.
  revert us. induction xs as [|x xs IH]; intros us Hx Hy.
  - injection Hx as <-. exact Hy.
  - simpl in *. destruct (f x) as [u|e]; [|discriminate]. simpl in *.
    destruct (mapM f xs) as [us'|e]; [|discriminate]. simpl in *.
    injection Hx as <-. now rewrite (IH us' eq_refl Hy).
Qed.

Lemma trimStart_all_space (s : jsstring) :
  forallb isWhiteSpace s = true -> trimStart s = [].
Proof.
  induction s as [|c s IH]; [reflexivity|].
  simpl. rewrite andb_true_iff. intros [-> Hs]. now apply IH.
Qed.

Section MoreLoader.
Context {H : Host}.

(** X12. Rows are normalised one by one: loading two files' rows in a row
    gives the Posts of the first followed by the Posts of the second, and
    a row without a date can be taken out of the file without changing
    what is loaded. *)
Theorem load_is_row_by_row (first second : list Raw.t) :
  (exists loaded1 loaded2,
      processData first = Normal loaded1
      /\ processData second = Normal loaded2
      /\ processData (first ++ second) = Normal (loaded1 ++ loaded2))
  /\ forall row,
       truthy (Raw.date_posted row) = false ->
       processData (first ++ row :: second) = processData (first ++ second).
Proof.
  split.
  - destruct (processData_returns first) as [l1 [E1 _]].
    destruct (processData_returns second) as [l2 [E2 _]].
    exists l1, l2. split; [exact E1|]. split; [exact E2|].
    unfold processData in *. rewrite filter_app. now apply mapM_app.
  - intros row Hrow. unfold processData.
    rewrite !filter_app. cbn [filter]. now rewrite Hrow.
Qed.

(** X13. A count column that holds only white space gives 0. *)
Theorem blank_count_is_zero (s : jsstring) :
  forallb isWhiteSpace s = true ->
  Number (Some s) = zero /\ coerceCount (Some s) = zero.
Proof.
  intros Hs.
  assert (E : Number (Some s) = zero).
  { unfold Number, StringToNumber, trim.
    now rewrite (trimStart_all_space s Hs). }
  split; [exact E|]. unfold coerceCount. now rewrite E.
Qed.

Lemma blank_count_is_zero_witness :
  Number (Some (js "   ")) = zero /\ coerceCount (Some (js "   ")) = zero.
Proof. apply blank_count_is_zero. reflexivity. Defined.

(** ** The component as a state machine *)

Lemma processPost_trimmed (row : Raw.t) (post : InstagramPost) :
  processPost row = Normal post ->
  trim (clean_description post) = clean_description post.
Proof.
  destruct (processPost_returns row) as [tags [_ ->]].
  intros E. injection E as <-. cbn.
  destruct (cleanDescription_prefix (stringOr (Raw.description row) [])) as [x [y [_ [-> _]]]].
  apply trim_idempotent.
Qed.

Lemma processData_normalised (rows : list Raw.t) (loaded : list InstagramPost) :
  processData rows = Normal loaded -> Forall normalised loaded.
Proof.
  intros E. destruct (processData_returns rows) as [l [E' HF]].
  rewrite E in E'. injection E' as <-.
  clear E. induction HF as [|row post rs ps Hp _ IH]; [constructor|].
  constructor; [|exact IH].
  destruct (loaded_post_invariants row Hp) as [H1 [H2 [H3 [H4 _]]]].
  repeat split; try assumption. now apply (processPost_trimmed row).
Qed.

Lemma step_invariant (st : State) (e : Event) :
  invariant st -> invariant (step st e).
Proof.
  intros [Hsub Hnorm]. unfold step, handle.
  destruct e as [file outcome|value|checked|].
  - destruct file as [name|]; cbn [handleFileUpload]; [|now split].
    destruct outcome as [results|error]; [|now split].
    destruct (processData (data results)) as [loaded|err] eqn:E; cbn [bind]; [|now split].
    split; cbn; [apply Subseq_refl | now apply (processData_normalised (data results))].
  - now split.
  - now split.
  - unfold searchPosts.
    destruct (searchIn (posts st) (searchTerm st) (isHashtagSearch st)) as [results|err] eqn:E;
      cbn [bind]; [|now split].
    split; cbn; [|exact Hnorm].
    unfold searchIn in E. destruct (isEmpty (searchTerm st)).
    + injection E as <-. apply Subseq_refl.
    + eapply filterM_Subseq. exact E.
Qed.

(** X15. Whatever the user does and whatever files are loaded, starting from
    the empty page: the Posts displayed are Posts of the dataset, in
    dataset order, and every Post of the dataset and of the display has
    counts that are numbers, a [hashtags] value that is not falsy, and a
    clean description that is trimmed and holds no match of the hashtag
    pattern. *)
Theorem reachable_states_are_consistent (events : list Event) :
  Subseq (searchResults (run events initialState))
         (posts (run events initialState))
  /\ Forall normalised (posts (run events initialState))
  /\ Forall normalised (searchResults (run events initialState)).
Proof.
  assert (Hinv : forall st, invariant st -> invariant (run events st)).
  { unfold run. induction events as [|e events IH]; intros st Hst; [exact Hst|].
    simpl. apply IH. now apply step_invariant. }
  destruct (Hinv initialState) as [Hsub Hnorm].
  { split; constructor. }
  split; [exact Hsub|]. split; [exact Hnorm|].
  rewrite Forall_forall in *. intros post Hin. apply Hnorm.
  eapply Subseq_In; eassumption.
Qed.

(** X16. Clicking the search button a second time changes nothing, whether
    the first click succeeded or threw. *)
Theorem search_click_is_idempotent (st : State) :
  step (step st SearchClicked) SearchClicked = step st SearchClicked.
Proof.
  unfold step, handle, searchPosts.
  destruct (searchIn (posts st) (searchTerm st) (isHashtagSearch st)) as [results|err] eqn:E;
    cbn [bind].
  - cbn. rewrite E. reflexivity.
  - rewrite E. reflexivity.
Qed.

(** X17. A load that completes puts the same Posts into the dataset and into
    the display, whatever query is in the box, and leaves the query, the
    mode and the console alone; choosing no file changes nothing. *)
Theorem load_shows_the_whole_file (name : jsstring) (results : ParseResult)
    (outcome : PapaOutcome) (st : State) :
  (exists loaded,
      processData (data results) = Normal loaded
      /\ posts (step st (FileChosen (Some name) (Complete results))) = loaded
      /\ searchResults (step st (FileChosen (Some name) (Complete results))) = loaded
      /\ searchTerm (step st (FileChosen (Some name) (Complete results))) = searchTerm st
      /\ isHashtagSearch (step st (FileChosen (Some name) (Complete results)))
         = isHashtagSearch st
      /\ console (step st (FileChosen (Some name) (Complete results))) = console st)
  /\ step st (FileChosen None outcome) = st.
Proof.
  split; [|reflexivity].
  destruct (processData_returns (data results)) as [loaded [E _]].
  exists loaded. split; [exact E|].
  unfold step, handle, handleFileUpload. rewrite E. cbn. repeat split.
Qed.

End MoreLoader.

Lemma load_is_row_by_row_witness :
  processData (H := RefHost.host)
    ([rowOf (Some (js "2024-05-01")) None]
       ++ rowOf (Some []) (Some (js "['cat']")) :: [rowOf (Some (js "2024-05-02")) None])
  = processData (H := RefHost.host)
      ([rowOf (Some (js "2024-05-01")) None] ++ [rowOf (Some (js "2024-05-02")) None]).
Proof.
  apply (proj2 (@load_is_row_by_row RefHost.host
                  [rowOf (Some (js "2024-05-01")) None]
                  [rowOf (Some (js "2024-05-02")) None])).
  reflexivity.
Defined.

(** ** Counts that are not numbers *)

Lemma span_prefix (p : codeunit -> bool) (s a b : jsstring) :
  span p s = (a, b) -> forallb p a = true.
Proof.
  revert a b. induction s as [|c s IH]; simpl; intros a b E.
  - now injection E as <- <-.
  - destruct (p c) eqn:Hc.
    + destruct (span p s) as [a' b'] eqn:Es. injection E as <- <-.
      simpl. now rewrite Hc, (IH a' b' eq_refl).
    + now injection E as <- <-.
Qed.

Lemma span_misses (p : codeunit -> bool) (s a b : jsstring) (c : codeunit) :
  span p s = (a, b) -> In c s -> p c = false -> In c b.
Proof.
  intros E Hin Hc. pose proof (@span_prefix p s a b E) as Ha.
  apply span_app in E. subst s. apply in_app_or in Hin.
  destruct Hin as [Hin | Hin]; [|exact Hin].
  rewrite forallb_forall in Ha. specialize (Ha c Hin). congruence.
Qed.

Lemma outsideNumbers_inv (c : codeunit) :
  outsideNumbers c = true ->
  isDigit c = false /\ inRange 65 90 c = false /\ inRange 97 122 c = false
  /\ c <> 43 /\ c <> 45 /\ c <> 46.
Proof.
  unfold outsideNumbers. rewrite negb_true_iff, !orb_false_iff, !N.eqb_neq. tauto.
Qed.

Lemma inRange_false (lo hi c : codeunit) :
  inRange lo hi c = false -> c < lo \/ hi < c.
Proof.
  unfold inRange. rewrite andb_false_iff, !N.leb_gt. tauto.
Qed.

Lemma outside_not_hex (c : codeunit) :
  outsideNumbers c = true ->
  isHexDigit c = false /\ isOctalDigit c = false /\ isBinaryDigit c = false.
Proof.
  intros Hc. apply outsideNumbers_inv in Hc.
  destruct Hc as [Hd [Hu [Hl _]]].
  apply inRange_false in Hd, Hu, Hl.
  unfold isHexDigit, isOctalDigit, isBinaryDigit, isDigit, inRange.
  repeat split; by_cases.
Qed.

Lemma nonDecimal_outside (base : N) (p : codeunit -> bool) (ds : jsstring) (c : codeunit) :
  In c ds -> p c = false -> nonDecimal base p ds = NaN.
Proof.
  intros Hin Hc. unfold nonDecimal.
  destruct (span p ds) as [a b] eqn:E.
  pose proof (@span_misses p ds a b c E Hin Hc) as Hb.
  destruct a; [reflexivity|]. destruct b; [contradiction | reflexivity].
Qed.

Lemma signOf_keeps (s t : jsstring) (neg : bool) (c : codeunit) :
  signOf s = (neg, t) -> In c s -> c <> 43 -> c <> 45 -> In c t.
Proof.
  unfold signOf. destruct s as [|x r]; [intros E; now injection E as _ <-|].
  destruct (N.eqb_spec x 43) as [->|H43].
  - intros E [Hx | Hin] Hp Hm; injection E as _ <-; [congruence | exact Hin].
  - destruct (N.eqb_spec x 45) as [->|H45].
    + intros E [Hx | Hin] Hp Hm; injection E as _ <-; [congruence | exact Hin].
    + intros E Hin _ _. now injection E as _ <-.
Qed.

Lemma exponentPart_outside (s : jsstring) (c : codeunit) :
  In c s -> outsideNumbers c = true -> exponentPart s = None.
Proof.
  intros Hin Hc. pose proof (@outsideNumbers_inv c Hc) as [Hd [_ [_ [Hp [Hm _]]]]].
  unfold exponentPart. destruct s as [|x r]; [contradiction|].
  destruct ((x =? 101) || (x =? 69)) eqn:Hx; [|reflexivity].
  assert (Hr : In c r).
  { destruct Hin as [E | Hin]; [|exact Hin]. exfalso. subst x.
    apply orb_true_iff in Hx.
    destruct Hx as [Hx | Hx]; apply N.eqb_eq in Hx; subst c; discriminate Hc. }
  destruct (signOf r) as [neg r'] eqn:Es.
  pose proof (@signOf_keeps r r' neg c Es Hr Hp Hm) as Hr'.
  destruct (span isDigit r') as [ds rest] eqn:Esp.
  pose proof (@span_misses isDigit r' ds rest c Esp Hr' Hd) as Hrest.
  destruct ds; [reflexivity|]. destruct rest; [contradiction | reflexivity].
Qed.

Lemma unsignedDecimal_outside (neg : bool) (s : jsstring) (c : codeunit) :
  In c s -> outsideNumbers c = true -> unsignedDecimal neg s = NaN.
Proof.
  intros Hin Hc. pose proof (@outsideNumbers_inv c Hc) as [Hd [_ [_ [_ [_ Hdot]]]]].
  unfold unsignedDecimal.
  destruct (startsWith (js "Infinity") s && (length s =? 8)%nat) eqn:Hinf.
  { exfalso. apply andb_true_iff in Hinf. destruct Hinf as [Hst Hlen].
    apply startsWith_app in Hst. destruct Hst as [t ->].
    apply Nat.eqb_eq in Hlen. rewrite length_app in Hlen.
    destruct t; [|simpl in Hlen; lia]. rewrite app_nil_r in Hin.
    simpl in Hin.
    repeat (destruct Hin as [Hin | Hin];
            [subst c; discriminate Hc|]). exact Hin. }
  destruct (span isDigit s) as [ip r] eqn:Es.
  pose proof (@span_misses isDigit s ip r c Es Hin Hd) as Hr.
  destruct r as [|x r1]; [contradiction|].
  destruct (N.eqb_spec x 46) as [->|Hx].
  - destruct Hr as [E | Hr]; [congruence|].
    destruct (span isDigit r1) as [fp r2] eqn:Ef.
    pose proof (@span_misses isDigit r1 fp r2 c Ef Hr Hd) as Hr2.
    rewrite (@exponentPart_outside r2 c Hr2 Hc).
    now destruct (isEmpty ip && isEmpty fp).
  - assert (He : exponentPart (x :: r1) = None) by (now apply exponentPart_outside with (c := c)).
    destruct (isEmpty ip) eqn:Hip.
    + destruct x as [|q]; [reflexivity|].
      do 6 (destruct q as [q|q|]; try reflexivity); congruence.
    + destruct x as [|q]; [now rewrite He|].
      do 6 (destruct q as [q|q|]; try (now rewrite He)); congruence.
Qed.

Lemma trimStart_keeps (s : jsstring) (c : codeunit) :
  In c s -> isWhiteSpace c = false -> In c (trimStart s).
Proof.
  intros Hin Hc. induction s as [|x s IH]; [contradiction|].
  simpl. destruct (isWhiteSpace x) eqn:Hx; [|exact Hin].
  destruct Hin as [-> | Hin]; [congruence | now apply IH].
Qed.

Lemma trim_keeps (s : jsstring) (c : codeunit) :
  In c s -> isWhiteSpace c = false -> In c (trim s).
Proof.
  intros Hin Hc. unfold trim, trimEnd.
  apply in_rev. rewrite rev_involutive. apply trimStart_keeps; [|exact Hc].
  apply -> in_rev. now apply trimStart_keeps.
Qed.

Lemma StringToNumber_outside (s : jsstring) (c : codeunit) :
  In c (trim s) -> outsideNumbers c = true -> StringToNumber s = NaN.
Proof.
  intros Hin Hc. unfold StringToNumber.
  pose proof (@outsideNumbers_inv c Hc) as [Hd [_ [_ [Hp [Hm _]]]]].
  pose proof (@outside_not_hex c Hc) as [Hhex [Hoct Hbin]].
  assert (Hsign : forall t, In c t ->
                    (let (neg, t') := signOf t in unsignedDecimal neg t') = NaN).
  { intros t Ht. destruct (signOf t) as [neg t'] eqn:Es.
    apply unsignedDecimal_outside with (c := c); [|exact Hc].
    exact (@signOf_keeps t t' neg c Es Ht Hp Hm). }
  destruct (trim s) as [|c0 r]; [contradiction|].
  destruct r as [|x ds]; [now apply Hsign|].
  assert (Hds : forall a b, c0 = 48 -> (x =? a) || (x =? b) = true ->
                  outsideNumbers a = false -> outsideNumbers b = false -> In c ds).
  { intros a b -> Hx Ha Hb. destruct Hin as [E | [E | Hin]]; [| |exact Hin].
    - subst c. discriminate Hc.
    - subst c. apply orb_true_iff in Hx.
      destruct Hx as [Hx | Hx]; apply N.eqb_eq in Hx; subst x; congruence. }
  destruct ((c0 =? 48) && ((x =? 120) || (x =? 88))) eqn:H16.
  { apply andb_true_iff in H16. destruct H16 as [H0 Hx]. apply N.eqb_eq in H0.
    apply nonDecimal_outside with (c := c); [|exact Hhex].
    now apply (Hds 120 88). }
  destruct ((c0 =? 48) && ((x =? 111) || (x =? 79))) eqn:H8.
  { apply andb_true_iff in H8. destruct H8 as [H0 Hx]. apply N.eqb_eq in H0.
    apply nonDecimal_outside with (c := c); [|exact Hoct].
    now apply (Hds 111 79). }
  destruct ((c0 =? 48) && ((x =? 98) || (x =? 66))) eqn:H2.
  { apply andb_true_iff in H2. destruct H2 as [H0 Hx]. apply N.eqb_eq in H0.
    apply nonDecimal_outside with (c := c); [|exact Hbin].
    now apply (Hds 98 66). }
  now apply Hsign.
Qed.

(** X14. A count written with a character that no numeric literal contains -
    a thousands separator, a space between digits, a currency sign - is
    not a number for [Number] and is loaded as 0. *)
Theorem count_with_foreign_character_is_zero :
  (forall s c,
      In c (trim s) -> outsideNumbers c = true ->
      Number (Some s) = NaN /\ coerceCount (Some s) = zero)
  /\ (forall s, In 44 s -> coerceCount (Some s) = zero).
Proof.
  assert (Hgen : forall s c,
             In c (trim s) -> outsideNumbers c = true ->
             Number (Some s) = NaN /\ coerceCount (Some s) = zero).
  { intros s c Hin Hc.
    assert (E : Number (Some s) = NaN) by (now apply StringToNumber_outside with (c := c)).
    split; [exact E|]. unfold coerceCount. now rewrite E. }
  split; [exact Hgen|].
  intros s Hin. apply (Hgen s 44); [|reflexivity].
  now apply trim_keeps.
Qed.

Lemma count_with_foreign_character_is_zero_witness :
  coerceCount (Some (js "1 000")) = zero
  /\ coerceCount (Some (js "1,234")) = zero.
Proof.
  destruct count_with_foreign_character_is_zero as [Hgen Hcomma].
  split.
  - apply (Hgen (js "1 000") 32); [|reflexivity].
    right. left. reflexivity.
  - apply Hcomma. right. left. reflexivity.
Defined.

(** ** The [hashtags] field, case by case *)

(** X18. The [hashtags] of a loaded Post is the empty array when the tag
    column is absent or empty, when its text is not JSON after the quotes
    are replaced, and when it is JSON for a falsy value ([null], [false],
    [0], the empty string); in every other case it is the JSON value the
    column holds, array or not.  No tag column makes the row fail. *)
Theorem hashtags_field_by_cases {H : Host} (row : Raw.t) :
  exists post,
    processPost row = Normal post
    /\ (truthy (Raw.hashtags row) = false -> hashtags post = VArray [])
    /\ (forall e,
          JSON_parse (replaceEvery 39 [34] (stringOr (Raw.hashtags row) [])) = Throw e ->
          hashtags post = VArray [])
    /\ (forall v,
          JSON_parse (replaceEvery 39 [34] (stringOr (Raw.hashtags row) [])) = Normal v ->
          toBoolean v = false -> hashtags post = VArray [])
    /\ (forall v,
          truthy (Raw.hashtags row) = true ->
          JSON_parse (replaceEvery 39 [34] (stringOr (Raw.hashtags row) [])) = Normal v ->
          toBoolean v = true -> hashtags post = v).
Proof.
  destruct (processPost_returns row) as [tags [Ht Hp]].
  eexists. split; [exact Hp|]. cbn [hashtags]. unfold tryParseJSON in Ht.
  split; [|split; [|split]].
  - intros Hcol. rewrite Hcol in Ht. injection Ht as <-. reflexivity.
  - intros e He. rewrite He in Ht.
    destruct (truthy (Raw.hashtags row)); injection Ht as <-; reflexivity.
  - intros v Hv Hfalse. rewrite Hv in Ht.
    destruct (truthy (Raw.hashtags row)); injection Ht as <-; [|reflexivity].
    unfold orElse. now rewrite Hfalse.
  - intros v Hcol Hv Htrue. rewrite Hcol, Hv in Ht. injection Ht as <-.
    unfold orElse. now rewrite Htrue.
Qed.

Lemma hashtags_field_by_cases_witness :
  exists post,
    processPost (H := RefHost.host) (rowOf (Some (js "2024-05-01")) (Some (js "null")))
    = Normal post
    /\ hashtags post = VArray [].
Proof.
  destruct (@hashtags_field_by_cases RefHost.host
              (rowOf (Some (js "2024-05-01")) (Some (js "null"))))
    as [post [Hp [_ [_ [Hfalsy _]]]]].
  exists post. split; [exact Hp|].
  apply (Hfalsy VNull); reflexivity.
Defined.
